(** * Painter: a freehand drawing overlay on a 2D canvas

    Shallow embedding of [src/utils/Painter.tsx] (the variant with
    [threshold], [lineWidth] and the retained [data] path) and proofs of the
    properties its specification states.

    Modelling decisions, all visible in the definitions below:
    - JavaScript numbers are modelled as integers [Z] with exact arithmetic:
      pixel coordinates, offsets, sizes, the device pixel ratio and the
      threshold.  [getDistance] is the real-valued square root of the source;
      the comparison the handler performs on it is decided on integers and
      proved equivalent to the comparison on reals.
    - Native objects live in an explicit [World]: the canvas element behind
      [canvasRef] (or null), the viewport, the console.  Code that touches them
      runs in a small state-and-exception monad [M].
    - The component is a record of its [useState] cells together with the
      closure that the memoised [onMove] holds, refreshed by the dependency
      test React performs on [[drawing, position]]. *)

From Stdlib Require Import ZArith List String Bool Lia Reals Lra.
Import ListNotations.
Local Open Scope string_scope.
Local Open Scope Z_scope.
Local Open Scope list_scope.

(** ** Data *)

(** [type Coordinates = { x: number; y: number }] *)
Record Coordinates := mkCoordinates { x : Z; y : Z }.

(** [interface PainterInterface]; [recordPoints] is optional. *)
Record PainterInterface := mkProps {
  recordPoints : option bool;
  threshold : Z;
  lineWidth : Z
}.

(** JavaScript truthiness of an optional boolean property. *)
Definition truthy (b : option bool) : bool :=
  match b with Some true => true | _ => false end.

(** One contact point of a touch event (the DOM [Touch] interface). *)
Record Touch := mkTouch {
  touchClientX : Z; touchClientY : Z;
  pageX : Z; pageY : Z
}.

(** The fields of a pointer or touch event that the handlers read. *)
Record Event := mkEvent {
  type : string;
  touches : list Touch;
  clientX : Z;
  clientY : Z
}.

(** Calls received by a [CanvasRenderingContext2D], in order. *)
Inductive CtxCall :=
| SetStrokeStyle (s : string)
| SetLineJoin (s : string)
| SetLineWidth (w : Z)
| BeginPath
| MoveTo (px py : Z)
| LineTo (px py : Z)
| ClosePath
| Stroke
| Scale (sx sy : Z).

(** The canvas element.  [context2d] is what [getContext("2d")] returns:
    [None] for null, otherwise the calls the context has received since the
    backing store was last reset. *)
Record HTMLCanvasElement := mkCanvas {
  offsetLeft : Z;
  offsetTop : Z;
  width : Z;
  height : Z;
  context2d : option (list CtxCall)
}.

(** Everything outside the component.  [viewport] is the box
    [getBoundingClientRect] reports for the canvas, whose style is
    [100vw] by [100vh].  [calls] is the list of invocations of the stroke
    renderer [drawLine], kept for counting; [console] is what [console.log]
    has printed. *)
Record World := mkWorld {
  canvasRef : option HTMLCanvasElement;
  viewport : Z * Z;
  devicePixelRatio : option Z;
  calls : list (Coordinates * Coordinates);
  console : list (list Coordinates)
}.

(** ** The monad of native effects *)

Inductive Exn := TypeError.

Inductive result (A : Type) :=
| Ok (a : A) (w : World)
| Throw (e : Exn) (w : World).
Arguments Ok {A} a w.
Arguments Throw {A} e w.

Definition M (A : Type) := World -> result A.

Definition ret {A} (a : A) : M A := fun w => Ok a w.
Definition bind {A B} (m : M A) (f : A -> M B) : M B :=
  fun w => match m w with
           | Ok a w' => f a w'
           | Throw e w' => Throw e w'
           end.
Definition throw {A} (e : Exn) : M A := fun w => Throw e w.
Definition get : M World := fun w => Ok w w.

Notation "x <- m ;; k" := (bind m (fun x => k))
  (at level 61, m at next level, right associativity).
Notation "m ;;; k" := (bind m (fun _ => k))
  (at level 61, right associativity).

Definition set_canvas (c : HTMLCanvasElement) (w : World) : World :=
  mkWorld (Some c) (viewport w) (devicePixelRatio w) (calls w) (console w).

Definition set_viewport (v : Z * Z) (w : World) : World :=
  mkWorld (canvasRef w) v (devicePixelRatio w) (calls w) (console w).

Definition add_call (p1 p2 : Coordinates) (w : World) : World :=
  mkWorld (canvasRef w) (viewport w) (devicePixelRatio w)
          (calls w ++ [(p1, p2)]) (console w).

Definition add_log (d : list Coordinates) (w : World) : World :=
  mkWorld (canvasRef w) (viewport w) (devicePixelRatio w)
          (calls w) (console w ++ [d]).

(** Calls on the 2D context of a canvas. *)
Definition ctx_calls (cs : list CtxCall) (c : HTMLCanvasElement)
  : HTMLCanvasElement :=
  match context2d c with
  | Some old => mkCanvas (offsetLeft c) (offsetTop c) (width c) (height c)
                         (Some (old ++ cs))
  | None => c
  end.

(** Assigning [canvas.width] or [canvas.height] resets the backing store
    and the state of its context. *)
Definition reset_context (c : option (list CtxCall)) : option (list CtxCall) :=
  match c with Some _ => Some [] | None => None end.

Definition assign_width (v : Z) (c : HTMLCanvasElement) : HTMLCanvasElement :=
  mkCanvas (offsetLeft c) (offsetTop c) v (height c)
           (reset_context (context2d c)).

Definition assign_height (v : Z) (c : HTMLCanvasElement) : HTMLCanvasElement :=
  mkCanvas (offsetLeft c) (offsetTop c) (width c) v
           (reset_context (context2d c)).

(** Mutation of the element that [canvasRef.current] points to. *)
Definition update_canvas (f : HTMLCanvasElement -> HTMLCanvasElement) : M unit :=
  fun w => match canvasRef w with
           | Some c => Ok tt (set_canvas (f c) w)
           | None => Ok tt w
           end.

(** ** The functions of the component *)

(** [drawLine(p1, p2)]: returns at once when [canvasRef.current] is null,
    does nothing when the context is null, and otherwise strokes the
    segment.  Every invocation is counted in [calls]. *)
Definition drawLine (props : PainterInterface) (p1 p2 : Coordinates) : M unit :=
  fun w =>
    let w := add_call p1 p2 w in
    match canvasRef w with
    | None => Ok tt w
    | Some c =>
        match context2d c with
        | Some _ =>
            Ok tt (set_canvas
                     (ctx_calls [SetStrokeStyle "#000000";
                                 SetLineJoin "round";
                                 SetLineWidth (lineWidth props);
                                 BeginPath;
                                 MoveTo (x p1) (y p1);
                                 LineTo (x p2) (y p2);
                                 ClosePath;
                                 Stroke] c) w)
        | None => Ok tt w
        end
    end.

Definition is_touch (e : Event) : bool :=
  String.eqb (type e) "touchstart" || String.eqb (type e) "touchmove".

(** [getCoordinates(event)].  Reading [touches[0].pageX] when there is no
    first touch raises a TypeError. *)
Definition getCoordinates (event : Event) : M (option Coordinates) :=
  fun w =>
    match canvasRef w with
    | None => Ok None w
    | Some c =>
        if is_touch event then
          match touches event with
          | t :: _ =>
              Ok (Some (mkCoordinates (pageX t - offsetLeft c)
                                      (pageY t - offsetTop c))) w
          | [] => Throw TypeError w
          end
        else
          Ok (Some (mkCoordinates (clientX event - offsetLeft c)
                                  (clientY event - offsetTop c))) w
    end.

(** [getDistance(p1, p2)], as the source computes it. *)
Definition sqDistance (p1 p2 : Coordinates) : Z :=
  (x p2 - x p1) ^ 2 + (y p2 - y p1) ^ 2.

Definition getDistance (p1 p2 : Coordinates) : R :=
  sqrt (IZR (sqDistance p1 p2)).

(** The test [getDistance(p1, p2) > t], decided on integers. *)
Definition getDistance_gtb (p1 p2 : Coordinates) (t : Z) : bool :=
  (t <? 0) || (t * t <? sqDistance p1 p2).

(** [redraw()]: the loop [for (let i = 0; i < data.length - 1; i++)].
    [n] is the number of iterations left and [i] the loop variable.  A
    read past the end of [data] yields [undefined], whose property read in
    [drawLine] is a TypeError; [redraw_indices_in_range] shows the loop never
    gets there. *)
Fixpoint redraw_loop (props : PainterInterface) (data : list Coordinates)
         (n : nat) (i : nat) : M unit :=
  match n with
  | O => ret tt
  | S n' =>
      match nth_error data i, nth_error data (i + 1) with
      | Some p1, Some p2 =>
          drawLine props p1 p2 ;;; redraw_loop props data n' (S i)
      | _, _ => throw TypeError
      end
  end.

Definition redraw (props : PainterInterface) (data : list Coordinates) : M unit :=
  redraw_loop props data (Z.to_nat (Z.of_nat (List.length data) - 1)) 0.

(** What [resizeCanvas] returns: [undefined] (falling off the end) or [null]. *)
Inductive VoidOrNull := Undefined | Null.

(** [resizeCanvas(canvas)]; [canvas] is [canvasRef.current!], so the element
    it mutates is the one in the world.  With a null argument the first
    statement, [canvas.getBoundingClientRect()], raises a TypeError. *)
Definition resizeCanvas (props : PainterInterface) (data : list Coordinates)
           (canvas : option HTMLCanvasElement) : M VoidOrNull :=
  match canvas with
  | None => throw TypeError
  | Some c =>
      w <- get ;;
      let '(bw, bh) := viewport w in
      if negb (width c =? bw) || negb (height c =? bh) then
        let ratio := match devicePixelRatio w with Some r => r | None => 1 end in
        match context2d c with
        | Some _ =>
            update_canvas (assign_width (bw * ratio)) ;;;
            update_canvas (assign_height (bh * ratio)) ;;;
            update_canvas (ctx_calls [Scale ratio ratio]) ;;;
            redraw props data ;;;
            ret Undefined
        | None => ret Null
        end
      else ret Undefined
  end.

(** ** The state of the component *)

(** The three [useState] cells.  [position_id] stands for the identity of
    the object held by [position]: [getCoordinates] builds a new object
    literal on every call, and React compares dependencies with
    [Object.is], that is by identity for objects. *)
Record State := mkState {
  drawing : bool;
  position : option Coordinates;
  position_id : nat;
  data : list Coordinates
}.

(** A call of one of the three state setters. *)
Inductive Update :=
| SetDrawing (b : bool)
| SetPosition (p : option Coordinates)
| SetData (d : list Coordinates).

Definition apply_update (s : State) (u : Update) : State :=
  match u with
  | SetDrawing b => mkState b (position s) (position_id s) (data s)
  | SetPosition (Some p) => mkState (drawing s) (Some p) (S (position_id s)) (data s)
  | SetPosition None => mkState (drawing s) None (position_id s) (data s)
  | SetData d => mkState (drawing s) (position s) (position_id s) d
  end.

(** ** The event handlers

    A handler reads the state its closure captured and returns the setter
    calls it made; React applies them in one batch after the handler. *)

(** [onDown], memoised with no dependencies: it reads no state. *)
Definition onDown (event : Event) : M (list Update) :=
  coordinates <- getCoordinates event ;;
  match coordinates with
  | Some c => ret [SetPosition (Some c); SetDrawing true]
  | None => ret []
  end.

(** [onUp] *)
Definition onUp : M (list Update) :=
  ret [SetDrawing false; SetPosition None].

(** [onMove], memoised on [[drawing, position]]: [env] is the state of the
    render in which the closure in use was created. *)
Definition onMove (props : PainterInterface) (env : State) (event : Event)
  : M (list Update) :=
  if drawing env then
    newPosition <- getCoordinates event ;;
    match position env, newPosition with
    | Some p, Some q =>
        if getDistance_gtb p q (threshold props) then
          drawLine props p q ;;;
          ret [SetPosition (Some q); SetData (data env ++ [q])]
        else ret []
    | _, _ => ret []
    end
  else ret [].

(** ** Rendering and effects *)

(** The component between two events: the state of the latest render and
    the state captured by the [onMove] that [useCallback] currently returns. *)
Record Component := mkComponent {
  state : State;
  onMove_closure : State
}.

(** The dependency test of [useCallback(..., [drawing, position])]. *)
Definition deps_eqb (s1 s2 : State) : bool :=
  Bool.eqb (drawing s1) (drawing s2) &&
  match position s1, position s2 with
  | None, None => true
  | Some _, Some _ => Nat.eqb (position_id s1) (position_id s2)
  | _, _ => false
  end.

Definition render (c : Component) (ups : list Update) : Component :=
  let s' := fold_left apply_update ups (state c) in
  if deps_eqb (onMove_closure c) s'
  then mkComponent s' (onMove_closure c)
  else mkComponent s' s'.

(** The effect on [[size]]: [resizeCanvas(canvasRef.current!)]. *)
Definition resizeEffect (props : PainterInterface) (s : State) : M unit :=
  w <- get ;;
  resizeCanvas props (data s) (canvasRef w) ;;;
  ret tt.

(** [data != []] compares the array with a new array literal by identity,
    so it holds whatever [data] contains. *)
Definition differs_from_new_array (d : list Coordinates) : bool := true.

(** The effect on [[drawing]]. *)
Definition logEffect (props : PainterInterface) (s : State) : M unit :=
  if truthy (recordPoints props) && negb (drawing s)
     && differs_from_new_array (data s)
  then fun w => Ok tt (add_log (data s) w)
  else ret tt.

(** ** The component as a machine *)

Inductive Input :=
| Dom (e : Event)
| WindowResize (vw vh : Z).

Definition is_down (e : Event) : bool :=
  String.eqb (type e) "mousedown" || String.eqb (type e) "touchstart".
Definition is_up (e : Event) : bool :=
  String.eqb (type e) "mouseup" || String.eqb (type e) "touchend".
Definition is_move (e : Event) : bool :=
  String.eqb (type e) "mousemove" || String.eqb (type e) "touchmove".

(** The listeners of the [<canvas>] element. *)
Definition handler (props : PainterInterface) (c : Component) (e : Event)
  : M (list Update) :=
  if is_down e then onDown e
  else if is_up e then onUp
  else if is_move e then onMove props (onMove_closure c) e
  else ret [].

(** Modelled from the spec: the window-size observer [useWindowSize] is
    imported from a file that is not among the sources; it "reports current
    viewport width/height, used only to trigger canvas resize".  A report
    is a [WindowResize] input: the canvas is laid out in the new viewport,
    the component renders again and the effect that depends on [size] runs. *)
Definition useWindowSize (vw vh : Z) : M unit :=
  fun w => Ok tt (set_viewport (vw, vh) w).

(** One input, handled to completion: the listener runs, React applies the
    batch of setter calls and renders, and the effects whose dependencies
    changed run with the state of that render. *)
Definition step (props : PainterInterface) (c : Component) (i : Input)
  : M Component :=
  match i with
  | Dom e =>
      ups <- handler props c e ;;
      let c' := render c ups in
      (if Bool.eqb (drawing (state c')) (drawing (state c))
       then ret tt
       else logEffect props (state c')) ;;;
      ret c'
  | WindowResize vw vh =>
      useWindowSize vw vh ;;;
      resizeEffect props (state c) ;;;
      ret c
  end.

Definition initialState : State := mkState false None 0 [].

(** First render: both effects run, in the order they are declared. *)
Definition mount (props : PainterInterface) : M Component :=
  resizeEffect props initialState ;;;
  logEffect props initialState ;;;
  ret (mkComponent initialState initialState).

Fixpoint run (props : PainterInterface) (c : Component) (inputs : list Input)
  : M Component :=
  match inputs with
  | [] => ret c
  | i :: rest => c' <- step props c i ;; run props c' rest
  end.

(** The states the component can be in: after mounting, and after any
    input handled without an exception. *)
Inductive reachable (props : PainterInterface) : Component -> World -> Prop :=
| reach_mount w0 c w :
    mount props w0 = Ok c w -> reachable props c w
| reach_step c w i c' w' :
    reachable props c w -> step props c i w = Ok c' w' ->
    reachable props c' w'.

(** An event a browser can deliver: a touch event has a first contact. *)
Definition wf_event (e : Event) : bool :=
  if is_touch e then match touches e with [] => false | _ => true end
  else true.

Definition session (props : PainterInterface) (w0 : World)
           (inputs : list Input) : result Component :=
  (c <- mount props ;; run props c inputs) w0.

(** ** Notions used in the statements *)

(** The consecutive pairs of a path. *)
Definition segments (d : list Coordinates) : list (Coordinates * Coordinates) :=
  combine d (tl d).

(** Number of [stroke()] calls a canvas has received since its last reset. *)
Definition is_stroke (k : CtxCall) : bool :=
  match k with Stroke => true | _ => false end.

Definition strokes (c : HTMLCanvasElement) : nat :=
  match context2d c with
  | Some ks => List.length (filter is_stroke ks)
  | None => O
  end.

(** The world [drawLine] leaves behind. *)
Definition after_drawLine (props : PainterInterface) (p1 p2 : Coordinates)
           (w : World) : World :=
  match drawLine props p1 p2 w with
  | Ok _ w' => w'
  | Throw _ w' => w'
  end.

(** Rendering a list of segments, one [drawLine] each. *)
Definition drawAll (props : PainterInterface)
           (segs : list (Coordinates * Coordinates)) (w : World) : World :=
  fold_left (fun w s => after_drawLine props (fst s) (snd s) w) segs w.

(** The canvas after the three mutations of [resizeCanvas]. *)
Definition resized (c : HTMLCanvasElement) (ratio bw bh : Z) : HTMLCanvasElement :=
  ctx_calls [Scale ratio ratio]
            (assign_height (bh * ratio) (assign_width (bw * ratio) c)).

Definition ratio_of (w : World) : Z :=
  match devicePixelRatio w with Some r => r | None => 1 end.

(** The replay runs when the box differs from the backing size and the
    context can be obtained. *)
Definition replay_runs (c : HTMLCanvasElement) (bw bh : Z) : bool :=
  (negb (width c =? bw) || negb (height c =? bh)) &&
  match context2d c with Some _ => true | None => false end.

(** The world the resize effect leaves behind on a mounted canvas [c]. *)
Definition after_resize (props : PainterInterface) (d : list Coordinates)
           (c : HTMLCanvasElement) (w : World) : World :=
  if replay_runs c (fst (viewport w)) (snd (viewport w))
  then drawAll props (segments d)
               (set_canvas (resized c (ratio_of w) (fst (viewport w))
                                    (snd (viewport w))) w)
  else w.

(** The world the logging effect leaves behind. *)
Definition log_world (props : PainterInterface) (s : State) (w : World) : World :=
  if truthy (recordPoints props) && negb (drawing s)
  then add_log (data s) w else w.

(** The world after the effects of a render that took [c] to [c']. *)
Definition after_render (props : PainterInterface) (c c' : Component)
           (w : World) : World :=
  if Bool.eqb (drawing (state c')) (drawing (state c))
  then w else log_world props (state c') w.

(** What a listener can do: nothing, start a stroke, end it, or extend it
    by one rendered segment. *)
Inductive handled (props : PainterInterface) (c : Component) (w : World)
  : list Update -> World -> Prop :=
| handled_none : handled props c w [] w
| handled_down q : handled props c w [SetPosition (Some q); SetDrawing true] w
| handled_up : handled props c w [SetDrawing false; SetPosition None] w
| handled_move p q :
    drawing (onMove_closure c) = true ->
    position (onMove_closure c) = Some p ->
    getDistance_gtb p q (threshold props) = true ->
    handled props c w
            [SetPosition (Some q); SetData (data (onMove_closure c) ++ [q])]
            (after_drawLine props p q w).

(** The memoised [onMove] holds the state of the latest render. *)
Definition fresh (c : Component) : Prop := onMove_closure c = state c.

(** The component right after its first render. *)
Definition mounted : Component := mkComponent initialState initialState.

(** While drawing, the current position is known. *)
Definition position_known (s : State) : Prop :=
  drawing s = true -> position s <> None.

(** The path is the list of second endpoints of the segments rendered. *)
Definition path_is_rendered (c : Component) (w : World) : Prop :=
  data (state c) = map snd (calls w).

(** The native resource is missing: no element, or no 2D context. *)
Definition unavailable (w : World) : Prop :=
  canvasRef w = None \/ exists cv, canvasRef w = Some cv /\ context2d cv = None.

(** Worlds compared with the console set aside. *)
Definition set_console (l : list (list Coordinates)) (w : World) : World :=
  mkWorld (canvasRef w) (viewport w) (devicePixelRatio w) (calls w) l.

Definition silence (w : World) : World := set_console [] w.

Definition res_silence {A} (r : result A) : result A :=
  match r with
  | Ok a w => Ok a (silence w)
  | Throw e w => Throw e (silence w)
  end.

(** Properties that agree on everything the drawing code reads. *)
Definition same_drawing_props (p1 p2 : PainterInterface) : Prop :=
  threshold p1 = threshold p2 /\ lineWidth p1 = lineWidth p2.

(** ** The coordinate mapping as the specification words it

    The client coordinates of the event, those of the first contact point
    for a touch event, minus the offset of the canvas; nothing without a
    canvas.  [getCoordinates] is compared with it below. *)
Definition clientPoint (e : Event) : option (Z * Z) :=
  if is_touch e then
    match touches e with
    | t :: _ => Some (touchClientX t, touchClientY t)
    | [] => None
    end
  else Some (clientX e, clientY e).

Definition getCoordinates_spec (e : Event) (w : World) : option Coordinates :=
  match canvasRef w, clientPoint e with
  | Some c, Some (a, b) => Some (mkCoordinates (a - offsetLeft c) (b - offsetTop c))
  | _, _ => None
  end.

(** ** Sample values

    The home page mounts [<Painter lineWidth={3} threshold={4}
    recordPoints={true} />]; [quietProps] is the same without
    [recordPoints].  A new canvas element is 300 by 150. *)

Definition pt (a b : Z) : Coordinates := mkCoordinates a b.
Definition mouse (t : string) (a b : Z) : Event := mkEvent t [] a b.
Definition homeProps : PainterInterface := mkProps (Some true) 4 3.
Definition quietProps : PainterInterface := mkProps None 4 3.
Definition blankCanvas : HTMLCanvasElement := mkCanvas 0 0 300 150 (Some []).
Definition world0 : World := mkWorld (Some blankCanvas) (800, 600) None [] [].

(** A canvas whose [getContext("2d")] returns null. *)
Definition noContextWorld : World :=
  mkWorld (Some (mkCanvas 0 0 300 150 None)) (800, 600) None [] [].

(** A canvas placed at (3, 4) in the document. *)
Definition offsetWorld : World :=
  mkWorld (Some (mkCanvas 3 4 300 150 (Some []))) (800, 600) None [] [].

(** One stroke: a move below the threshold, then two above it. *)
Definition sampleStroke : list Event :=
  [mouse "mousedown" 0 0; mouse "mousemove" 1 1; mouse "mousemove" 5 5;
   mouse "mousemove" 10 10; mouse "mouseup" 10 10].

(** A touch on a page scrolled down by 500 pixels. *)
Definition scrolledTouch : Event :=
  mkEvent "touchmove" [mkTouch 10 20 10 520] 0 0.

(** ** The context calls of one [drawLine] *)

Definition line_calls (props : PainterInterface) (p1 p2 : Coordinates)
  : list CtxCall :=
  [SetStrokeStyle "#000000"; SetLineJoin "round";
   SetLineWidth (lineWidth props); BeginPath;
   MoveTo (x p1) (y p1); LineTo (x p2) (y p2); ClosePath; Stroke].

(** ** The variant without threshold and path

    The second [Painter] of [Painter.tsx]: two state cells, a fixed line
    width of 1, no [data], no effects.  Its [getCoordinates] is the same
    text as the one above and is shared. *)
Module PainterBasic.

Record State := mkState {
  drawing : bool;
  position : option Coordinates;
  position_id : nat
}.

Inductive Update :=
| SetDrawing (b : bool)
| SetPosition (p : option Coordinates).

Definition apply_update (s : State) (u : Update) : State :=
  match u with
  | SetDrawing b => mkState b (position s) (position_id s)
  | SetPosition (Some p) => mkState (drawing s) (Some p) (S (position_id s))
  | SetPosition None => mkState (drawing s) None (position_id s)
  end.

(** [drawLine(p1, p2)]: returns null without a canvas element. *)
Definition drawLine (p1 p2 : Coordinates) : M VoidOrNull :=
  fun w =>
    let w := add_call p1 p2 w in
    match canvasRef w with
    | None => Ok Null w
    | Some c =>
        match context2d c with
        | Some _ =>
            Ok Undefined
               (set_canvas
                  (ctx_calls [SetStrokeStyle "#000000";
                              SetLineJoin "round";
                              SetLineWidth 1;
                              BeginPath;
                              MoveTo (x p1) (y p1);
                              LineTo (x p2) (y p2);
                              ClosePath;
                              Stroke] c) w)
        | None => Ok Undefined w
        end
    end.

Definition onDown (event : Event) : M (list Update) :=
  coordinates <- getCoordinates event ;;
  match coordinates with
  | Some c => ret [SetPosition (Some c); SetDrawing true]
  | None => ret []
  end.

Definition onUp : M (list Update) :=
  ret [SetDrawing false; SetPosition None].

Definition onMove (env : State) (event : Event) : M (list Update) :=
  if drawing env then
    newPosition <- getCoordinates event ;;
    match position env, newPosition with
    | Some p, Some q =>
        drawLine p q ;;;
        ret [SetPosition (Some q)]
    | _, _ => ret []
    end
  else ret [].

Record Component := mkComponent {
  state : State;
  onMove_closure : State
}.

Definition deps_eqb (s1 s2 : State) : bool :=
  Bool.eqb (drawing s1) (drawing s2) &&
  match position s1, position s2 with
  | None, None => true
  | Some _, Some _ => Nat.eqb (position_id s1) (position_id s2)
  | _, _ => false
  end.

Definition render (c : Component) (ups : list Update) : Component :=
  let s' := fold_left apply_update ups (state c) in
  if deps_eqb (onMove_closure c) s'
  then mkComponent s' (onMove_closure c)
  else mkComponent s' s'.

Definition handler (c : Component) (e : Event) : M (list Update) :=
  if is_down e then onDown e
  else if is_up e then onUp
  else if is_move e then onMove (onMove_closure c) e
  else ret [].

Definition step (c : Component) (e : Event) : M Component :=
  ups <- handler c e ;;
  ret (render c ups).

Fixpoint run (c : Component) (es : list Event) : M Component :=
  match es with
  | [] => ret c
  | e :: rest => c' <- step c e ;; run c' rest
  end.

End PainterBasic.

(** The threshold variant seen as the basic one: the path is dropped. *)
Definition forget_state (s : State) : PainterBasic.State :=
  PainterBasic.mkState (drawing s) (position s) (position_id s).

Definition forget (c : Component) : PainterBasic.Component :=
  PainterBasic.mkComponent (forget_state (state c))
                           (forget_state (onMove_closure c)).

Definition res_map {A B} (f : A -> B) (r : result A) : result B :=
  match r with
  | Ok a w => Ok (f a) w
  | Throw e w => Throw e w
  end.

(** A canvas whose device pixel ratio is 2. *)
Definition retinaWorld : World :=
  mkWorld (Some blankCanvas) (800, 600) (Some 2) [] [].

(** A segment longer than the threshold. *)
Definition longer_than (t : Z) (s : Coordinates * Coordinates) : Prop :=
  (IZR t < getDistance (fst s) (snd s))%R.

(** The setter calls the basic variant has in common with this one. *)
Definition forget_updates (ups : list Update) : list PainterBasic.Update :=
  flat_map (fun u => match u with
                     | SetDrawing b => [PainterBasic.SetDrawing b]
                     | SetPosition p => [PainterBasic.SetPosition p]
                     | SetData _ => []
                     end) ups.

(** The context calls that render a list of segments. *)
Definition lines_calls (props : PainterInterface)
           (segs : list (Coordinates * Coordinates)) : list CtxCall :=
  flat_map (fun s => line_calls props (fst s) (snd s)) segs.

(** * Properties *)

(** ** The distance test *)

Lemma sqDistance_nonneg p q : 0 <= sqDistance p q.
Proof. unfold sqDistance. nia. Qed.

Lemma getDistance_nonneg p q : (0 <= getDistance p q)%R.
Proof. unfold getDistance. apply sqrt_pos. Qed.

(** The integer test decides the comparison of the source. *)
Lemma getDistance_gtb_spec p q t :
  getDistance_gtb p q t = true <-> (IZR t < getDistance p q)%R.
Proof.
  unfold getDistance_gtb, getDistance.
  pose proof (sqDistance_nonneg p q) as Hd.
  destruct (Z.ltb_spec t 0) as [Hneg | Hpos]; cbn [orb].
  - split; [intros _ | reflexivity].
    apply Rlt_le_trans with 0%R; [apply IZR_lt; lia | apply sqrt_pos].
  - assert (Ht : IZR t = sqrt (IZR (t * t))).
    { rewrite mult_IZR. symmetry. apply sqrt_square. apply IZR_le. lia. }
    rewrite Ht. split.
    + intros H. apply Z.ltb_lt in H.
      apply sqrt_lt_1_alt. split; [apply IZR_le; nia | apply IZR_lt; lia].
    + intros H. apply Z.ltb_lt.
      apply lt_IZR. apply sqrt_lt_0_alt in H. exact H.
Qed.

Lemma getDistance_gtb_false p q t :
  getDistance_gtb p q t = false <-> (getDistance p q <= IZR t)%R.
Proof.
  split.
  - intros H. apply Rnot_lt_le. intros C.
    apply getDistance_gtb_spec in C. congruence.
  - intros H. destruct (getDistance_gtb p q t) eqn:E; [| reflexivity].
    apply getDistance_gtb_spec in E. lra.
Qed.

(** ** Event kinds *)

Lemma is_move_not_down_up e :
  is_move e = true -> is_down e = false /\ is_up e = false.
Proof.
  unfold is_move, is_down, is_up. intros H.
  apply orb_true_iff in H.
  destruct H as [H | H]; apply String.eqb_eq in H; rewrite H; split; reflexivity.
Qed.

Lemma is_up_not_down e : is_up e = true -> is_down e = false.
Proof.
  unfold is_down, is_up. intros H.
  apply orb_true_iff in H.
  destruct H as [H | H]; apply String.eqb_eq in H; rewrite H; reflexivity.
Qed.

(** ** The stroke renderer *)

Lemma drawLine_ok props p1 p2 w :
  drawLine props p1 p2 w = Ok tt (after_drawLine props p1 p2 w).
Proof.
  unfold after_drawLine, drawLine. cbn.
  destruct (canvasRef w) as [c |]; [destruct (context2d c) |]; reflexivity.
Qed.

Lemma after_drawLine_calls props p1 p2 w :
  calls (after_drawLine props p1 p2 w) = calls w ++ [(p1, p2)].
Proof.
  unfold after_drawLine, drawLine. cbn.
  destruct (canvasRef w) as [c |]; [destruct (context2d c) |]; reflexivity.
Qed.

Lemma after_drawLine_frame props p1 p2 w :
  console (after_drawLine props p1 p2 w) = console w /\
  viewport (after_drawLine props p1 p2 w) = viewport w /\
  devicePixelRatio (after_drawLine props p1 p2 w) = devicePixelRatio w.
Proof.
  unfold after_drawLine, drawLine. cbn.
  destruct (canvasRef w) as [c |]; [destruct (context2d c) |]; cbn; auto.
Qed.

(** On a canvas with a context, one call is one more stroke. *)
Lemma after_drawLine_canvas props p1 p2 w c :
  canvasRef w = Some c ->
  exists c', canvasRef (after_drawLine props p1 p2 w) = Some c' /\
             offsetLeft c' = offsetLeft c /\ offsetTop c' = offsetTop c /\
             width c' = width c /\ height c' = height c /\
             (context2d c = None -> c' = c) /\
             (context2d c <> None ->
              context2d c' <> None /\ strokes c' = S (strokes c)).
Proof.
  intros Hc. unfold after_drawLine, drawLine. cbn. rewrite Hc.
  destruct (context2d c) as [ks |] eqn:Hk.
  - eexists. cbn. split; [reflexivity |].
    unfold ctx_calls. rewrite Hk. cbn.
    repeat split; try congruence.
    unfold strokes. cbn. rewrite Hk.
    rewrite filter_app, length_app. cbn. lia.
  - exists c. cbn. rewrite Hc. repeat split; congruence.
Qed.

(** Without a canvas, or without a context, nothing but the count changes. *)
Lemma after_drawLine_unavailable props p1 p2 w :
  (canvasRef w = None \/
   exists c, canvasRef w = Some c /\ context2d c = None) ->
  after_drawLine props p1 p2 w = add_call p1 p2 w.
Proof.
  unfold after_drawLine, drawLine. cbn.
  intros [H | [c [H1 H2]]].
  - rewrite H. reflexivity.
  - rewrite H1, H2. reflexivity.
Qed.

Lemma drawAll_calls props segs : forall w,
  calls (drawAll props segs w) = calls w ++ segs.
Proof.
  induction segs as [| [p q] segs IH]; intros w; cbn.
  - now rewrite app_nil_r.
  - unfold drawAll in IH. rewrite IH, after_drawLine_calls.
    now rewrite <- app_assoc.
Qed.

Lemma drawAll_frame props segs : forall w,
  console (drawAll props segs w) = console w /\
  viewport (drawAll props segs w) = viewport w /\
  devicePixelRatio (drawAll props segs w) = devicePixelRatio w.
Proof.
  induction segs as [| [p q] segs IH]; intros w; cbn; [auto |].
  unfold drawAll in IH.
  destruct (IH (after_drawLine props p q w)) as (A & B & C).
  destruct (after_drawLine_frame props p q w) as (A' & B' & C').
  repeat split; congruence.
Qed.

Lemma drawAll_canvas props segs : forall w c,
  canvasRef w = Some c ->
  exists c', canvasRef (drawAll props segs w) = Some c' /\
             offsetLeft c' = offsetLeft c /\ offsetTop c' = offsetTop c /\
             width c' = width c /\ height c' = height c /\
             (context2d c = None -> c' = c) /\
             (context2d c <> None ->
              context2d c' <> None /\
              strokes c' = (strokes c + List.length segs)%nat).
Proof.
  induction segs as [| [p q] segs IH]; intros w c Hc; cbn.
  - exists c. repeat split; auto; try lia.
  - destruct (after_drawLine_canvas props p q w c Hc)
      as (c1 & H1 & L1 & T1 & W1 & Hh1 & N1 & S1).
    destruct (IH _ _ H1) as (c2 & H2 & L2 & T2 & W2 & Hh2 & N2 & S2).
    exists c2. unfold drawAll in H2. rewrite H2.
    split; [reflexivity |].
    split; [congruence |]. split; [congruence |].
    split; [congruence |]. split; [congruence |].
    split.
    + intros Hn. rewrite N2; [now apply N1 |]. rewrite (N1 Hn). exact Hn.
    + intros Hn. destruct (S1 Hn) as [Hne Hs].
      destruct (S2 Hne) as [Hne2 Hs2]. split; [exact Hne2 | lia].
Qed.

(** ** The replay loop *)

Lemma segments_length d : List.length (segments d) = (List.length d - 1)%nat.
Proof.
  unfold segments. rewrite length_combine.
  destruct d; cbn [tl List.length]; [reflexivity |].
  rewrite Nat.min_r; lia.
Qed.

Lemma segments_nth d i p q :
  nth_error d i = Some p -> nth_error d (S i) = Some q ->
  nth_error (segments d) i = Some (p, q).
Proof.
  unfold segments. revert i.
  induction d as [| a d IH]; intros i Hp Hq; [destruct i; discriminate |].
  destruct i as [| i]; cbn in *.
  - destruct d; cbn in *; congruence.
  - destruct d as [| b d]; [destruct i; discriminate |].
    cbn. apply (IH i); assumption.
Qed.

Lemma skipn_nth_error {A} (l : list A) : forall i a,
  nth_error l i = Some a -> skipn i l = a :: skipn (S i) l.
Proof.
  induction l as [| b l IH]; intros [| i] a H; cbn in *; try discriminate.
  - congruence.
  - now apply IH.
Qed.

(** The indices the loop reads are inside [data], so it never throws, and
    it renders the segments from [i] on, [n] of them. *)
Lemma redraw_indices_in_range props d : forall n i w,
  (n = 0 \/ i + n < List.length d)%nat ->
  redraw_loop props d n i w =
  Ok tt (drawAll props (firstn n (segments (skipn i d))) w).
Proof.
  induction n as [| n IH]; intros i w Hb; [reflexivity |].
  destruct Hb as [Hb | Hb]; [discriminate |].
  destruct (nth_error d i) as [p1 |] eqn:E1.
  2:{ apply nth_error_None in E1. lia. }
  destruct (nth_error d (i + 1)) as [p2 |] eqn:E2.
  2:{ apply nth_error_None in E2. lia. }
  cbn [redraw_loop]. rewrite E1, E2.
  unfold bind. rewrite drawLine_ok.
  rewrite IH by lia.
  rewrite (skipn_nth_error d i _ E1).
  replace (i + 1)%nat with (S i) in E2 by lia.
  rewrite (skipn_nth_error d (S i) _ E2).
  reflexivity.
Qed.

Lemma redraw_ok props d w :
  redraw props d w = Ok tt (drawAll props (segments d) w).
Proof.
  unfold redraw. rewrite redraw_indices_in_range.
  - cbn [skipn]. rewrite firstn_all2; [reflexivity |].
    rewrite segments_length. lia.
  - destruct d; [left; reflexivity | right; cbn [List.length]; lia].
Qed.

(** ** The resize handler *)

Lemma resizeEffect_mounted props s w c :
  canvasRef w = Some c ->
  resizeEffect props s w = Ok tt (after_resize props (data s) c w).
Proof.
  intros Hc. unfold resizeEffect, after_resize, replay_runs, bind, get.
  rewrite Hc. cbn [resizeCanvas]. unfold bind, get.
  destruct (viewport w) as [bw bh] eqn:Hv. cbn [fst snd].
  destruct (negb (width c =? bw) || negb (height c =? bh)); cbn [andb];
    [| reflexivity].
  destruct (context2d c) as [ks |] eqn:Hk; [| reflexivity].
  unfold update_canvas. rewrite Hc. cbn.
  rewrite redraw_ok. unfold ret, resized, ratio_of. cbn.
  reflexivity.
Qed.

Lemma resizeEffect_null props s w :
  canvasRef w = None -> resizeEffect props s w = Throw TypeError w.
Proof.
  intros Hc. unfold resizeEffect, bind, get. rewrite Hc. reflexivity.
Qed.

Lemma resized_strokes c r bw bh :
  context2d c <> None ->
  context2d (resized c r bw bh) <> None /\ strokes (resized c r bw bh) = O.
Proof.
  intros H. unfold resized, ctx_calls, assign_height, assign_width, strokes.
  destruct (context2d c); [| congruence]. cbn. split; [congruence | reflexivity].
Qed.

Lemma after_resize_calls props d c w :
  calls (after_resize props d c w) =
  calls w ++ (if replay_runs c (fst (viewport w)) (snd (viewport w))
              then segments d else []).
Proof.
  unfold after_resize.
  destruct (replay_runs c _ _).
  - now rewrite drawAll_calls.
  - now rewrite app_nil_r.
Qed.

Lemma after_resize_console props d c w :
  console (after_resize props d c w) = console w.
Proof.
  unfold after_resize. destruct (replay_runs c _ _); [| reflexivity].
  now destruct (drawAll_frame props (segments d)
                  (set_canvas (resized c (ratio_of w) (fst (viewport w))
                                       (snd (viewport w))) w)) as (A & _).
Qed.

Lemma after_resize_canvas props d c w :
  canvasRef w = Some c ->
  exists c', canvasRef (after_resize props d c w) = Some c' /\
             (context2d c = None -> c' = c).
Proof.
  intros Hc. unfold after_resize.
  destruct (replay_runs c _ _) eqn:Hr.
  - destruct (drawAll_canvas props (segments d)
                (set_canvas (resized c (ratio_of w) (fst (viewport w))
                                     (snd (viewport w))) w) _ eq_refl)
      as (c' & H1 & _).
    exists c'. split; [exact H1 |].
    intros Hn. unfold replay_runs in Hr. rewrite Hn in Hr.
    rewrite andb_false_r in Hr. discriminate.
  - exists c. split; [exact Hc | reflexivity].
Qed.

(** ** The logging effect *)

Lemma logEffect_ok props s w :
  logEffect props s w = Ok tt (log_world props s w).
Proof.
  unfold logEffect, log_world, differs_from_new_array.
  rewrite andb_true_r.
  destruct (truthy (recordPoints props) && negb (drawing s)); reflexivity.
Qed.

Lemma log_world_frame props s w :
  canvasRef (log_world props s w) = canvasRef w /\
  calls (log_world props s w) = calls w /\
  viewport (log_world props s w) = viewport w.
Proof.
  unfold log_world.
  destruct (truthy (recordPoints props) && negb (drawing s)); cbn; auto.
Qed.

(** ** Handlers *)

Lemma getCoordinates_pure e w r w' :
  getCoordinates e w = Ok r w' -> w' = w.
Proof.
  unfold getCoordinates.
  destruct (canvasRef w); [destruct (is_touch e); [destruct (touches e) |] |];
    congruence.
Qed.

Lemma getCoordinates_ok e w :
  wf_event e = true -> exists r, getCoordinates e w = Ok r w.
Proof.
  unfold wf_event, getCoordinates. intros H.
  destruct (canvasRef w); [| eauto].
  destruct (is_touch e); [| eauto].
  destruct (touches e); [discriminate | eauto].
Qed.

Lemma handler_handled props c e w ups w1 :
  handler props c e w = Ok ups w1 -> handled props c w ups w1.
Proof.
  unfold handler, onDown, onUp, onMove, bind, ret.
  destruct (is_down e).
  { destruct (getCoordinates e w) as [r w2 | ex w2] eqn:G; [| discriminate].
    apply getCoordinates_pure in G. subst w2.
    destruct r; intros H; inversion H; subst; constructor. }
  destruct (is_up e).
  { intros H; inversion H; subst; constructor. }
  destruct (is_move e).
  2:{ intros H; inversion H; subst; constructor. }
  destruct (drawing (onMove_closure c)) eqn:D.
  2:{ intros H; inversion H; subst; constructor. }
  destruct (getCoordinates e w) as [r w2 | ex w2] eqn:G; [| discriminate].
  apply getCoordinates_pure in G. subst w2.
  destruct (position (onMove_closure c)) as [p |] eqn:P.
  2:{ intros H; inversion H; subst; constructor. }
  destruct r as [q |].
  2:{ intros H; inversion H; subst; constructor. }
  destruct (getDistance_gtb p q (threshold props)) eqn:F.
  2:{ intros H; inversion H; subst; constructor. }
  rewrite drawLine_ok. intros H; inversion H; subst.
  now apply handled_move.
Qed.

Lemma handler_ok props c e w :
  wf_event e = true -> exists ups w1, handler props c e w = Ok ups w1.
Proof.
  intros Hwf. destruct (getCoordinates_ok e w Hwf) as [r G].
  unfold handler, onDown, onUp, onMove, bind, ret.
  destruct (is_down e).
  { rewrite G. destruct r; eauto. }
  destruct (is_up e); [eauto |].
  destruct (is_move e); [| eauto].
  destruct (drawing (onMove_closure c)); [| eauto].
  rewrite G.
  destruct (position (onMove_closure c)) as [p |]; [| eauto].
  destruct r as [q |]; [| eauto].
  destruct (getDistance_gtb p q (threshold props)); [| eauto].
  rewrite drawLine_ok. eauto.
Qed.

Lemma step_dom props c e w ups w1 :
  handler props c e w = Ok ups w1 ->
  step props c (Dom e) w =
  Ok (render c ups) (after_render props c (render c ups) w1).
Proof.
  intros H. unfold step, bind, after_render. rewrite H.
  destruct (Bool.eqb _ _); [reflexivity |].
  now rewrite logEffect_ok.
Qed.

Lemma step_dom_inv props c e w c' w' :
  step props c (Dom e) w = Ok c' w' ->
  exists ups w1, handler props c e w = Ok ups w1 /\
                 c' = render c ups /\ w' = after_render props c c' w1.
Proof.
  intros H.
  destruct (handler props c e w) as [ups w1 | ex w1] eqn:Hh.
  - rewrite (step_dom _ _ _ _ _ _ Hh) in H. inversion H; subst. eauto.
  - unfold step, bind in H. rewrite Hh in H. discriminate.
Qed.

Lemma step_resize props c vw vh w cv :
  canvasRef w = Some cv ->
  step props c (WindowResize vw vh) w =
  Ok c (after_resize props (data (state c)) cv (set_viewport (vw, vh) w)).
Proof.
  intros Hc. unfold step, bind, useWindowSize.
  rewrite (resizeEffect_mounted props (state c) (set_viewport (vw, vh) w) cv Hc).
  reflexivity.
Qed.

Lemma step_resize_null props c vw vh w :
  canvasRef w = None ->
  step props c (WindowResize vw vh) w =
  Throw TypeError (set_viewport (vw, vh) w).
Proof.
  intros Hc. unfold step, bind, useWindowSize.
  rewrite resizeEffect_null; [reflexivity | exact Hc].
Qed.

(** ** Rendering keeps the memoised [onMove] up to date

    [onMove] lists [drawing] and [position] as dependencies but also reads
    [data].  Every handler that changes [data] stores a new object in
    [position] in the same batch, so the closure in use always holds the
    state of the latest render. *)

Lemma render_state c ups :
  state (render c ups) = fold_left apply_update ups (state c).
Proof. unfold render. destruct (deps_eqb _ _); reflexivity. Qed.

Lemma render_nil c : fresh c -> render c [] = c.
Proof.
  unfold fresh, render. intros F. cbn.
  destruct c as [s k]; cbn in *; subst.
  destruct (deps_eqb s s); reflexivity.
Qed.

Lemma render_fresh props c w ups w1 :
  fresh c -> handled props c w ups w1 -> fresh (render c ups).
Proof.
  unfold fresh, render. intros F H.
  destruct (deps_eqb (onMove_closure c) (fold_left apply_update ups (state c)))
    eqn:D; [| reflexivity].
  cbn. rewrite F in *. destruct (state c) as [dr pos id dat].
  unfold deps_eqb in D.
  inversion H; subst; cbn in *.
  - reflexivity.
  - destruct pos; [| now rewrite andb_false_r in D].
    rewrite Nat.eqb_sym, (proj2 (Nat.eqb_neq (S id) id)) in D by lia.
    now rewrite andb_false_r in D.
  - apply andb_true_iff in D. destruct D as [D1 D2].
    destruct dr; [discriminate |]. destruct pos; [discriminate |]. reflexivity.
  - destruct pos; [| now rewrite andb_false_r in D].
    rewrite Nat.eqb_sym, (proj2 (Nat.eqb_neq (S id) id)) in D by lia.
    now rewrite andb_false_r in D.
Qed.

Lemma step_fresh props c i w c' w' :
  fresh c -> step props c i w = Ok c' w' -> fresh c'.
Proof.
  intros F H. destruct i as [e | vw vh].
  - apply step_dom_inv in H. destruct H as (ups & w1 & Hh & -> & _).
    eapply render_fresh; [exact F | eapply handler_handled; exact Hh].
  - unfold step, bind, useWindowSize in H.
    destruct (resizeEffect props (state c) (set_viewport (vw, vh) w));
      [| discriminate].
    cbn in H. inversion H; subst. exact F.
Qed.

(** ** Mounting *)

Lemma mount_ok props w0 cv :
  canvasRef w0 = Some cv ->
  mount props w0 =
  Ok mounted (log_world props initialState (after_resize props [] cv w0)).
Proof.
  intros Hc. unfold mount, bind.
  rewrite (resizeEffect_mounted props initialState w0 cv Hc).
  rewrite logEffect_ok. reflexivity.
Qed.

Lemma mount_null props w0 :
  canvasRef w0 = None -> mount props w0 = Throw TypeError w0.
Proof.
  intros Hc. unfold mount, bind. now rewrite resizeEffect_null.
Qed.

Lemma mount_inv props w0 c w :
  mount props w0 = Ok c w ->
  c = mounted /\ calls w = calls w0 /\ canvasRef w <> None.
Proof.
  destruct (canvasRef w0) as [cv |] eqn:Hc.
  - rewrite (mount_ok props w0 cv Hc). intros H. inversion H; subst.
    split; [reflexivity |].
    destruct (log_world_frame props initialState (after_resize props [] cv w0))
      as (A & B & _).
    rewrite A, B, after_resize_calls.
    destruct (after_resize_canvas props [] cv w0 Hc) as (c' & H' & _).
    split; [| congruence].
    destruct (replay_runs _ _ _); cbn; now rewrite app_nil_r.
  - rewrite (mount_null props w0 Hc). discriminate.
Qed.

Lemma reachable_fresh props c w : reachable props c w -> fresh c.
Proof.
  induction 1 as [w0 c w Hm | c w i c' w' _ IH Hs].
  - apply mount_inv in Hm. destruct Hm as [-> _]. reflexivity.
  - eapply step_fresh; eassumption.
Qed.

(** ** The session invariant *)

Lemma handled_position_known props c w ups w1 :
  handled props c w ups w1 ->
  position_known (state c) ->
  position_known (fold_left apply_update ups (state c)).
Proof.
  unfold position_known.
  intros H I. inversion H; subst; cbn; try congruence. exact I.
Qed.

Lemma step_position_known props c i w c' w' :
  step props c i w = Ok c' w' ->
  position_known (state c) -> position_known (state c').
Proof.
  intros H I. destruct i as [e | vw vh].
  - apply step_dom_inv in H. destruct H as (ups & w1 & Hh & -> & _).
    rewrite render_state.
    eapply handled_position_known; [eapply handler_handled; exact Hh | exact I].
  - unfold step, bind, useWindowSize in H.
    destruct (resizeEffect props (state c) (set_viewport (vw, vh) w));
      [| discriminate].
    cbn in H. inversion H; subst. exact I.
Qed.

(** C10: in every state reachable from the mounted component by down, move
    and up events (and resizes), a true drawing flag comes with a non-null
    current position. *)
Theorem drawing_implies_position props c w :
  reachable props c w ->
  drawing (state c) = true -> position (state c) <> None.
Proof.
  induction 1 as [w0 c w Hm | c w i c' w' _ IH Hs].
  - apply mount_inv in Hm. destruct Hm as [-> _]. cbn. discriminate.
  - exact (step_position_known props c i w c' w' Hs IH).
Qed.

Lemma run_reachable props inputs : forall c w c' w',
  reachable props c w -> run props c inputs w = Ok c' w' ->
  reachable props c' w'.
Proof.
  induction inputs as [| i rest IH]; intros c w c' w' R H; cbn in H.
  - inversion H; subst. exact R.
  - unfold bind in H.
    destruct (step props c i w) as [c1 w1 | ex w1] eqn:Hs; [| discriminate].
    eapply IH; [| exact H]. eapply reach_step; eassumption.
Qed.

Lemma session_reachable props w0 inputs c w :
  session props w0 inputs = Ok c w -> reachable props c w.
Proof.
  unfold session, bind. intros H.
  destruct (mount props w0) as [c0 w1 | ex w1] eqn:Hm; [| discriminate].
  eapply run_reachable; [| exact H]. eapply reach_mount; exact Hm.
Qed.

Lemma drawing_implies_position_witness :
  exists c w,
    session homeProps world0 [Dom (mouse "mousedown" 0 0)] = Ok c w /\
    drawing (state c) = true /\ position (state c) <> None.
Proof.
  eexists. eexists. split; [reflexivity |]. split; [reflexivity |].
  eapply drawing_implies_position; [| reflexivity].
  apply (session_reachable homeProps world0 [Dom (mouse "mousedown" 0 0)]).
  reflexivity.
Defined.

(** ** Pointer down *)

Lemma handler_down props c e w q :
  is_down e = true ->
  getCoordinates e w = Ok (Some q) w ->
  handler props c e w = Ok [SetPosition (Some q); SetDrawing true] w.
Proof.
  intros Hd G. unfold handler, onDown, bind. rewrite Hd, G. reflexivity.
Qed.

Lemma after_render_drawing props c c' w :
  drawing (state c') = true -> after_render props c c' w = w.
Proof.
  intros H. unfold after_render, log_world. rewrite H.
  rewrite andb_false_r. now destruct (Bool.eqb _ _).
Qed.

(** C7: whenever the coordinate mapping succeeds, a pointer or touch down
    event puts the session in the drawing state with the down-point as the
    current position, whatever the state before. *)
Theorem down_starts_stroke props c w e q :
  is_down e = true ->
  getCoordinates e w = Ok (Some q) w ->
  exists c', step props c (Dom e) w = Ok c' w /\
             drawing (state c') = true /\
             position (state c') = Some q /\
             data (state c') = data (state c).
Proof.
  intros Hd G.
  pose proof (handler_down props c e w q Hd G) as Hh.
  exists (render c [SetPosition (Some q); SetDrawing true]).
  rewrite (step_dom _ _ _ _ _ _ Hh).
  rewrite after_render_drawing by (now rewrite render_state).
  rewrite render_state. cbn. auto.
Qed.

Lemma down_starts_stroke_witness :
  exists c',
    step homeProps (mkComponent (mkState true (Some (pt 9 9)) 7 [pt 9 9])
                                (mkState true (Some (pt 9 9)) 7 [pt 9 9]))
         (Dom (mkEvent "touchstart" [mkTouch 40 50 42 53] 0 0)) world0
    = Ok c' world0 /\
    drawing (state c') = true /\
    position (state c') = Some (pt 42 53) /\
    data (state c') = [pt 9 9].
Proof.
  apply (down_starts_stroke homeProps
           (mkComponent (mkState true (Some (pt 9 9)) 7 [pt 9 9])
                        (mkState true (Some (pt 9 9)) 7 [pt 9 9]))
           world0 (mkEvent "touchstart" [mkTouch 40 50 42 53] 0 0) (pt 42 53));
    reflexivity.
Defined.

(** ** Pointer move *)

Lemma handler_move props c e w p q :
  is_move e = true ->
  drawing (onMove_closure c) = true ->
  position (onMove_closure c) = Some p ->
  getCoordinates e w = Ok (Some q) w ->
  handler props c e w =
  if getDistance_gtb p q (threshold props)
  then Ok [SetPosition (Some q); SetData (data (onMove_closure c) ++ [q])]
          (after_drawLine props p q w)
  else Ok [] w.
Proof.
  intros Hm D P G.
  destruct (is_move_not_down_up e Hm) as [Hd Hu].
  unfold handler, onMove, bind. rewrite Hd, Hu, Hm, D, G, P.
  destruct (getDistance_gtb p q (threshold props)); [| reflexivity].
  now rewrite drawLine_ok.
Qed.

Lemma step_move_near props c e w p q :
  fresh c -> is_move e = true ->
  drawing (state c) = true -> position (state c) = Some p ->
  getCoordinates e w = Ok (Some q) w ->
  getDistance_gtb p q (threshold props) = false ->
  step props c (Dom e) w = Ok c w.
Proof.
  intros F Hm D P G N.
  assert (Hh : handler props c e w = Ok [] w).
  { rewrite (handler_move props c e w p q Hm); rewrite ?F; auto.
    now rewrite N. }
  rewrite (step_dom _ _ _ _ _ _ Hh), (render_nil c F).
  now rewrite after_render_drawing.
Qed.

Lemma step_move_far props c e w p q :
  fresh c -> is_move e = true ->
  drawing (state c) = true -> position (state c) = Some p ->
  getCoordinates e w = Ok (Some q) w ->
  getDistance_gtb p q (threshold props) = true ->
  exists c', step props c (Dom e) w = Ok c' (after_drawLine props p q w) /\
             state c' = mkState true (Some q) (S (position_id (state c)))
                                (data (state c) ++ [q]).
Proof.
  intros F Hm D P G N.
  assert (Hh : handler props c e w =
               Ok [SetPosition (Some q); SetData (data (state c) ++ [q])]
                  (after_drawLine props p q w)).
  { rewrite (handler_move props c e w p q Hm); rewrite ?F; auto.
    now rewrite N. }
  eexists. rewrite (step_dom _ _ _ _ _ _ Hh).
  assert (S' : state (render c [SetPosition (Some q);
                                SetData (data (state c) ++ [q])]) =
               mkState true (Some q) (S (position_id (state c)))
                       (data (state c) ++ [q])).
  { rewrite render_state. cbn. now rewrite D. }
  rewrite after_render_drawing by (now rewrite S').
  split; [reflexivity | exact S'].
Qed.

(** C2: on a move event during a stroke, with current position [p] and
    mapped candidate [q]: if the distance from [p] to [q] is at most the
    threshold, nothing is rendered and neither the state nor the world
    changes; if it is greater, exactly one segment, from [p] to [q], is
    rendered and the current position becomes [q]. *)
Theorem move_renders_beyond_threshold props c w e p q :
  reachable props c w ->
  is_move e = true ->
  drawing (state c) = true ->
  position (state c) = Some p ->
  getCoordinates e w = Ok (Some q) w ->
  ((getDistance p q <= IZR (threshold props))%R ->
   step props c (Dom e) w = Ok c w) /\
  ((IZR (threshold props) < getDistance p q)%R ->
   exists c' w',
     step props c (Dom e) w = Ok c' w' /\
     w' = after_drawLine props p q w /\
     calls w' = calls w ++ [(p, q)] /\
     drawing (state c') = true /\
     position (state c') = Some q /\
     (forall cv, canvasRef w = Some cv -> context2d cv <> None ->
                 exists cv', canvasRef w' = Some cv' /\
                             strokes cv' = S (strokes cv))).
Proof.
  intros R Hm D P G. pose proof (reachable_fresh props c w R) as F.
  split.
  - intros Hle. apply getDistance_gtb_false in Hle.
    eapply step_move_near; eassumption.
  - intros Hgt. apply getDistance_gtb_spec in Hgt.
    destruct (step_move_far props c e w p q F Hm D P G Hgt) as (c' & Hs & St).
    exists c', (after_drawLine props p q w).
    split; [exact Hs |]. split; [reflexivity |].
    split; [apply after_drawLine_calls |].
    rewrite St. cbn. split; [reflexivity |]. split; [reflexivity |].
    intros cv Hc Hk.
    destruct (after_drawLine_canvas props p q w cv Hc)
      as (cv' & H1 & _ & _ & _ & _ & _ & H2).
    exists cv'. split; [exact H1 | now apply H2].
Qed.

Lemma move_renders_beyond_threshold_witness :
  exists c w,
    session homeProps world0 [Dom (mouse "mousedown" 0 0)] = Ok c w /\
    step homeProps c (Dom (mouse "mousemove" 1 1)) w = Ok c w /\
    exists c' w',
      step homeProps c (Dom (mouse "mousemove" 5 5)) w = Ok c' w' /\
      calls w' = calls w ++ [(pt 0 0, pt 5 5)] /\
      position (state c') = Some (pt 5 5).
Proof.
  eexists. eexists. split; [reflexivity |].
  assert (R : reachable homeProps
                (mkComponent (mkState true (Some (pt 0 0)) 1 [])
                             (mkState true (Some (pt 0 0)) 1 []))
                (mkWorld (Some (mkCanvas 0 0 800 600 (Some [Scale 1 1])))
                         (800, 600) None [] [[]])).
  { apply (session_reachable homeProps world0 [Dom (mouse "mousedown" 0 0)]).
    reflexivity. }
  split.
  - apply (proj1 (move_renders_beyond_threshold homeProps _ _
                    (mouse "mousemove" 1 1) (pt 0 0) (pt 1 1)
                    R eq_refl eq_refl eq_refl eq_refl)).
    apply getDistance_gtb_false. reflexivity.
  - destruct (proj2 (move_renders_beyond_threshold homeProps _ _
                       (mouse "mousemove" 5 5) (pt 0 0) (pt 5 5)
                       R eq_refl eq_refl eq_refl eq_refl))
      as (c' & w' & Hs & _ & Hc & _ & Hp & _).
    + apply getDistance_gtb_spec. reflexivity.
    + exists c', w'. auto.
Defined.

(** ** The recorded path *)

Lemma after_render_frame props c c' w :
  calls (after_render props c c' w) = calls w /\
  canvasRef (after_render props c c' w) = canvasRef w.
Proof.
  unfold after_render. destruct (Bool.eqb _ _); [auto |].
  destruct (log_world_frame props (state c') w) as (A & B & _). auto.
Qed.

Lemma handled_canvas props c w ups w1 :
  handled props c w ups w1 -> canvasRef w <> None -> canvasRef w1 <> None.
Proof.
  intros H Hc. inversion H; subst; try exact Hc.
  destruct (canvasRef w) as [cv |] eqn:E; [| congruence].
  destruct (after_drawLine_canvas props p q w cv E) as (cv' & H' & _).
  congruence.
Qed.

Lemma handled_path props c w ups w1 :
  fresh c -> handled props c w ups w1 ->
  path_is_rendered c w -> path_is_rendered (render c ups) w1.
Proof.
  unfold path_is_rendered. intros F H I. rewrite render_state.
  inversion H; subst; cbn; try exact I.
  rewrite after_drawLine_calls, map_app, F, I. reflexivity.
Qed.

Lemma step_dom_path props c e w c' w' :
  fresh c -> path_is_rendered c w ->
  step props c (Dom e) w = Ok c' w' ->
  path_is_rendered c' w'.
Proof.
  intros F I H. apply step_dom_inv in H.
  destruct H as (ups & w1 & Hh & -> & ->).
  apply handler_handled in Hh. unfold path_is_rendered.
  destruct (after_render_frame props c (render c ups) w1) as [-> _].
  eapply handled_path; eassumption.
Qed.

Lemma run_dom_path props es : forall c w,
  fresh c -> path_is_rendered c w -> canvasRef w <> None ->
  Forall (fun e => wf_event e = true) es ->
  exists c' w', run props c (map Dom es) w = Ok c' w' /\
                fresh c' /\ path_is_rendered c' w' /\ canvasRef w' <> None.
Proof.
  induction es as [| e es IH]; intros c w F I Hc Hwf.
  - exists c, w. cbn. auto.
  - inversion Hwf as [| e' es' He Hes]; subst.
    destruct (handler_ok props c e w He) as (ups & w1 & Hh).
    pose proof (step_dom _ _ _ _ _ _ Hh) as Hs.
    pose proof (handler_handled _ _ _ _ _ _ Hh) as Hd.
    destruct (IH (render c ups) (after_render props c (render c ups) w1))
      as (c' & w' & Hr & F' & I' & Hc').
    + eapply render_fresh; eassumption.
    + eapply step_dom_path; eassumption.
    + destruct (after_render_frame props c (render c ups) w1) as [_ ->].
      eapply handled_canvas; eassumption.
    + exact Hes.
    + exists c', w'. cbn [map run]. unfold bind. rewrite Hs. auto.
Qed.

Lemma session_dom_path props w0 es :
  canvasRef w0 <> None -> calls w0 = [] ->
  Forall (fun e => wf_event e = true) es ->
  exists c w, session props w0 (map Dom es) = Ok c w /\
              fresh c /\ path_is_rendered c w /\ canvasRef w <> None.
Proof.
  intros Hc H0 Hwf.
  destruct (canvasRef w0) as [cv |] eqn:E; [| congruence].
  pose proof (mount_ok props w0 cv E) as Hm.
  destruct (mount_inv props w0 _ _ Hm) as (_ & Hcalls & Hcv).
  destruct (run_dom_path props es mounted
              (log_world props initialState (after_resize props [] cv w0)))
    as (c & w & Hr & F & I & Hc'); auto.
  - reflexivity.
  - unfold path_is_rendered. rewrite Hcalls, H0. reflexivity.
  - exists c, w. unfold session, bind. rewrite Hm. auto.
Qed.

Lemma step_down_keeps_path props c e w c' w' :
  is_down e = true -> step props c (Dom e) w = Ok c' w' ->
  data (state c') = data (state c) /\ calls w' = calls w.
Proof.
  intros Hd H. apply step_dom_inv in H.
  destruct H as (ups & w1 & Hh & -> & ->).
  destruct (after_render_frame props c (render c ups) w1) as [-> _].
  rewrite render_state.
  unfold handler, onDown, bind in Hh. rewrite Hd in Hh.
  destruct (getCoordinates e w) as [r w2 | ex w2] eqn:G; [| discriminate].
  apply getCoordinates_pure in G. subst w2.
  destruct r; inversion Hh; subst; cbn; auto.
Qed.

(** C3: with recording enabled, after any sequence of down, move and up
    events the recorded path is exactly the sequence of candidate points of
    the segments rendered, in the order they were rendered; a down event
    renders nothing and adds nothing to the path. *)
Theorem recorded_path_is_rendered_endpoints props w0 es :
  truthy (recordPoints props) = true ->
  canvasRef w0 <> None ->
  calls w0 = [] ->
  Forall (fun e => wf_event e = true) es ->
  (exists c w, session props w0 (map Dom es) = Ok c w /\
               data (state c) = map snd (calls w)) /\
  (forall c w e c' w',
      is_down e = true -> step props c (Dom e) w = Ok c' w' ->
      data (state c') = data (state c) /\ calls w' = calls w).
Proof.
  intros _ Hc H0 Hwf. split.
  - destruct (session_dom_path props w0 es Hc H0 Hwf) as (c & w & Hs & _ & I & _).
    exists c, w. auto.
  - intros c w e c' w'. apply step_down_keeps_path.
Qed.

Lemma recorded_path_is_rendered_endpoints_witness :
  exists c w, session homeProps world0 (map Dom sampleStroke) = Ok c w /\
              data (state c) = map snd (calls w) /\
              data (state c) = [pt 5 5; pt 10 10].
Proof.
  destruct (proj1 (recorded_path_is_rendered_endpoints homeProps world0
                     sampleStroke eq_refl
                     ltac:(discriminate) eq_refl
                     ltac:(repeat constructor)))
    as (c & w & Hs & Hd).
  exists c, w. split; [exact Hs |]. split; [exact Hd |].
  vm_compute in Hs. inversion Hs. reflexivity.
Defined.

(** ** Resize replay *)

Lemma replay_runs_true cv vw vh :
  context2d cv <> None -> width cv <> vw \/ height cv <> vh ->
  replay_runs cv vw vh = true.
Proof.
  intros Hk Hd. unfold replay_runs.
  destruct (context2d cv); [| congruence]. rewrite andb_true_r.
  apply orb_true_iff.
  destruct Hd as [H | H]; [left | right]; apply negb_true_iff, Z.eqb_neq, H.
Qed.

(** C4: a resize whose replay runs (the box differs from the backing size
    and the context is available) issues one stroke-render call per
    consecutive pair of the recorded path, the i-th from point i to point
    i+1: N-1 calls for N points, none when N <= 1.  The canvas, cleared by
    the resize, then holds exactly those strokes. *)
Theorem resize_replays_consecutive_pairs props c w cv vw vh :
  canvasRef w = Some cv ->
  context2d cv <> None ->
  width cv <> vw \/ height cv <> vh ->
  exists w',
    step props c (WindowResize vw vh) w = Ok c w' /\
    calls w' = calls w ++ segments (data (state c)) /\
    List.length (segments (data (state c))) =
      (List.length (data (state c)) - 1)%nat /\
    (forall i p q,
        nth_error (data (state c)) i = Some p ->
        nth_error (data (state c)) (S i) = Some q ->
        nth_error (segments (data (state c))) i = Some (p, q)) /\
    ((List.length (data (state c)) <= 1)%nat -> calls w' = calls w) /\
    (exists cv', canvasRef w' = Some cv' /\
                 strokes cv' = (List.length (data (state c)) - 1)%nat).
Proof.
  intros Hc Hk Hd.
  pose proof (replay_runs_true cv vw vh Hk Hd) as Hr.
  eexists. split; [apply (step_resize props c vw vh w cv Hc) |].
  rewrite after_resize_calls. cbn [set_viewport viewport fst snd]. rewrite Hr.
  split; [reflexivity |].
  split; [apply segments_length |].
  split; [intros i p q; apply segments_nth |].
  split.
  - intros Hn. pose proof (segments_length (data (state c))) as Hl.
    destruct (segments (data (state c))); [now rewrite app_nil_r |].
    cbn in Hl. lia.
  - unfold after_resize. cbn [set_viewport viewport fst snd]. rewrite Hr.
    destruct (resized_strokes cv (ratio_of (set_viewport (vw, vh) w)) vw vh Hk)
      as [Hk' Hs'].
    destruct (drawAll_canvas props (segments (data (state c)))
                (set_canvas (resized cv (ratio_of (set_viewport (vw, vh) w))
                                     vw vh) (set_viewport (vw, vh) w))
                _ eq_refl)
      as (cv' & H1 & _ & _ & _ & _ & _ & H2).
    exists cv'. split; [exact H1 |].
    destruct (H2 Hk') as [_ H3]. rewrite H3, Hs', segments_length. reflexivity.
Qed.

Lemma resize_replays_consecutive_pairs_witness :
  exists w',
    step homeProps
         (mkComponent (mkState false None 3 [pt 5 5; pt 10 10; pt 20 5])
                      (mkState false None 3 [pt 5 5; pt 10 10; pt 20 5]))
         (WindowResize 400 300) world0
    = Ok (mkComponent (mkState false None 3 [pt 5 5; pt 10 10; pt 20 5])
                      (mkState false None 3 [pt 5 5; pt 10 10; pt 20 5])) w' /\
    calls w' = [(pt 5 5, pt 10 10); (pt 10 10, pt 20 5)].
Proof.
  destruct (resize_replays_consecutive_pairs homeProps
              (mkComponent (mkState false None 3 [pt 5 5; pt 10 10; pt 20 5])
                           (mkState false None 3 [pt 5 5; pt 10 10; pt 20 5]))
              world0 blankCanvas 400 300 eq_refl
              ltac:(discriminate) ltac:(left; discriminate))
    as (w' & Hs & Hc & _).
  exists w'. split; [exact Hs | exact Hc].
Defined.

(** ** Pointer up and the debug log *)

Lemma handler_up props c e w :
  is_up e = true ->
  handler props c e w = Ok [SetDrawing false; SetPosition None] w.
Proof.
  intros Hu. unfold handler, onUp. rewrite (is_up_not_down e Hu), Hu.
  reflexivity.
Qed.

Lemma step_up props c e w :
  is_up e = true -> drawing (state c) = true ->
  exists c', step props c (Dom e) w = Ok c' (log_world props (state c') w) /\
             state c' = mkState false None (position_id (state c))
                                (data (state c)).
Proof.
  intros Hu D. pose proof (handler_up props c e w Hu) as Hh.
  eexists. rewrite (step_dom _ _ _ _ _ _ Hh).
  assert (S' : state (render c [SetDrawing false; SetPosition None]) =
               mkState false None (position_id (state c)) (data (state c))).
  { rewrite render_state. reflexivity. }
  split; [| exact S'].
  unfold after_render. rewrite S', D. reflexivity.
Qed.

(** C8: when a stroke ends (an up event in the drawing state) and recording
    is enabled, the whole recorded path is written to the console.  The
    emission adds that one console entry and nothing else: it makes no
    stroke-render call, leaves the canvas alone, and the component ends in
    the very state it reaches when nothing is emitted. *)
Theorem stroke_end_logs_path props c w e :
  truthy (recordPoints props) = true ->
  drawing (state c) = true ->
  is_up e = true ->
  exists c',
    step props c (Dom e) w = Ok c' (add_log (data (state c)) w) /\
    console (add_log (data (state c)) w) = console w ++ [data (state c)] /\
    calls (add_log (data (state c)) w) = calls w /\
    canvasRef (add_log (data (state c)) w) = canvasRef w /\
    state c' = mkState false None (position_id (state c)) (data (state c)) /\
    logEffect props (state c') w = Ok tt (add_log (data (state c')) w) /\
    (forall props', truthy (recordPoints props') = false ->
                    step props' c (Dom e) w = Ok c' w).
Proof.
  intros Hr D Hu.
  destruct (step_up props c e w Hu D) as (c' & Hs & St).
  exists c'.
  assert (L : log_world props (state c') w = add_log (data (state c)) w).
  { unfold log_world. rewrite Hr, St. reflexivity. }
  rewrite L in Hs.
  split; [exact Hs |]. split; [reflexivity |]. split; [reflexivity |].
  split; [reflexivity |]. split; [exact St |]. split.
  - rewrite logEffect_ok. unfold log_world. rewrite Hr, St. reflexivity.
  - intros props' Hr'.
    pose proof (handler_up props c e w Hu) as Hh.
    pose proof (handler_up props' c e w Hu) as Hh'.
    rewrite (step_dom _ _ _ _ _ _ Hh) in Hs.
    rewrite (step_dom _ _ _ _ _ _ Hh').
    inversion Hs as [[Hc Hw]]. rewrite Hc.
    unfold after_render, log_world. rewrite Hr'.
    now destruct (Bool.eqb _ _).
Qed.

Lemma stroke_end_logs_path_witness :
  exists c',
    step homeProps
         (mkComponent (mkState true (Some (pt 10 10)) 3 [pt 5 5; pt 10 10])
                      (mkState true (Some (pt 10 10)) 3 [pt 5 5; pt 10 10]))
         (Dom (mouse "mouseup" 10 10)) world0
    = Ok c' (add_log [pt 5 5; pt 10 10] world0) /\
    state c' = mkState false None 3 [pt 5 5; pt 10 10] /\
    step quietProps
         (mkComponent (mkState true (Some (pt 10 10)) 3 [pt 5 5; pt 10 10])
                      (mkState true (Some (pt 10 10)) 3 [pt 5 5; pt 10 10]))
         (Dom (mouse "mouseup" 10 10)) world0
    = Ok c' world0.
Proof.
  destruct (stroke_end_logs_path homeProps
              (mkComponent (mkState true (Some (pt 10 10)) 3 [pt 5 5; pt 10 10])
                           (mkState true (Some (pt 10 10)) 3 [pt 5 5; pt 10 10]))
              world0 (mouse "mouseup" 10 10) eq_refl eq_refl eq_refl)
    as (c' & Hs & _ & _ & _ & St & _ & Hq).
  exists c'. split; [exact Hs |]. split; [exact St |].
  apply Hq. reflexivity.
Defined.

(** ** What [recordPoints] can influence

    The console is written and never read, and [recordPoints] is read only
    by the logging effect.  So two runs that differ in [recordPoints] alone
    go through the same component states and leave the same world, the
    console apart. *)

Lemma after_drawLine_silence props p q w :
  silence (after_drawLine props p q w) = after_drawLine props p q (silence w).
Proof.
  unfold after_drawLine, drawLine. cbn.
  destruct (canvasRef w) as [cv |]; [destruct (context2d cv) |]; reflexivity.
Qed.

Lemma drawAll_silence props segs : forall w,
  silence (drawAll props segs w) = drawAll props segs (silence w).
Proof.
  induction segs as [| [p q] segs IH]; intros w; [reflexivity |].
  cbn. unfold drawAll in IH. now rewrite IH, after_drawLine_silence.
Qed.

Lemma after_resize_silence props d cv w :
  silence (after_resize props d cv w) = after_resize props d cv (silence w).
Proof.
  unfold after_resize. cbn [silence set_console viewport].
  destruct (replay_runs cv _ _); [| reflexivity].
  now rewrite drawAll_silence.
Qed.

Lemma log_world_silence props s w :
  silence (log_world props s w) = silence w.
Proof.
  unfold log_world.
  now destruct (truthy (recordPoints props) && negb (drawing s)).
Qed.

Lemma after_render_silence props c c' w :
  silence (after_render props c c' w) = silence w.
Proof.
  unfold after_render. destruct (Bool.eqb _ _); [reflexivity |].
  apply log_world_silence.
Qed.

Lemma getCoordinates_silence e w :
  getCoordinates e (silence w) = res_silence (getCoordinates e w).
Proof.
  unfold getCoordinates. cbn.
  destruct (canvasRef w); [destruct (is_touch e); [destruct (touches e) |] |];
    reflexivity.
Qed.

Lemma handler_silence props c e w :
  handler props c e (silence w) = res_silence (handler props c e w).
Proof.
  unfold handler, onDown, onUp, onMove, bind, ret.
  destruct (is_down e).
  { rewrite getCoordinates_silence.
    destruct (getCoordinates e w) as [[q |] w1 | ex w1]; reflexivity. }
  destruct (is_up e); [reflexivity |].
  destruct (is_move e); [| reflexivity].
  destruct (drawing (onMove_closure c)); [| reflexivity].
  rewrite getCoordinates_silence.
  destruct (getCoordinates e w) as [r w1 | ex w1]; [| reflexivity].
  cbn. destruct (position (onMove_closure c)) as [p |]; [| reflexivity].
  destruct r as [q |]; [| reflexivity].
  destruct (getDistance_gtb p q (threshold props)); [| reflexivity].
  rewrite !drawLine_ok. cbn. now rewrite after_drawLine_silence.
Qed.

Lemma handler_props p1 p2 c e w :
  same_drawing_props p1 p2 -> handler p1 c e w = handler p2 c e w.
Proof.
  destruct p1, p2. intros [H1 H2]. cbn in H1, H2. subst. reflexivity.
Qed.

Lemma after_resize_props p1 p2 d cv w :
  same_drawing_props p1 p2 ->
  after_resize p1 d cv w = after_resize p2 d cv w.
Proof.
  destruct p1, p2. intros [H1 H2]. cbn in H1, H2. subst. reflexivity.
Qed.

Lemma step_silence p1 p2 c i w1 w2 :
  same_drawing_props p1 p2 -> silence w1 = silence w2 ->
  res_silence (step p1 c i w1) = res_silence (step p2 c i w2).
Proof.
  intros Hp Hw. destruct i as [e | vw vh].
  - pose proof (handler_silence p1 c e w1) as H1.
    pose proof (handler_silence p2 c e w2) as H2.
    rewrite Hw, (handler_props p1 p2 c e _ Hp), H2 in H1.
    destruct (handler p1 c e w1) as [u1 v1 | x1 v1] eqn:E1;
      destruct (handler p2 c e w2) as [u2 v2 | x2 v2] eqn:E2;
      unfold res_silence in H1; try discriminate.
    + rewrite (step_dom _ _ _ _ _ _ E1), (step_dom _ _ _ _ _ _ E2).
      unfold res_silence. rewrite !after_render_silence. congruence.
    + unfold step, bind. rewrite E1, E2. unfold res_silence. congruence.
  - assert (Hc : canvasRef w1 = canvasRef w2).
    { change (canvasRef (silence w1) = canvasRef (silence w2)). now rewrite Hw. }
    destruct (canvasRef w1) as [cv |] eqn:C1.
    + rewrite (step_resize p1 c vw vh w1 cv C1).
      rewrite (step_resize p2 c vw vh w2 cv (eq_sym Hc)).
      unfold res_silence. rewrite !after_resize_silence.
      change (silence (set_viewport (vw, vh) w1))
        with (set_viewport (vw, vh) (silence w1)).
      change (silence (set_viewport (vw, vh) w2))
        with (set_viewport (vw, vh) (silence w2)).
      now rewrite Hw, (after_resize_props p1 p2 _ _ _ Hp).
    + rewrite (step_resize_null p1 c vw vh w1 C1).
      rewrite (step_resize_null p2 c vw vh w2 (eq_sym Hc)).
      unfold res_silence.
      change (silence (set_viewport (vw, vh) w1))
        with (set_viewport (vw, vh) (silence w1)).
      change (silence (set_viewport (vw, vh) w2))
        with (set_viewport (vw, vh) (silence w2)).
      now rewrite Hw.
Qed.

Lemma run_silence p1 p2 inputs : forall c w1 w2,
  same_drawing_props p1 p2 -> silence w1 = silence w2 ->
  res_silence (run p1 c inputs w1) = res_silence (run p2 c inputs w2).
Proof.
  induction inputs as [| i rest IH]; intros c w1 w2 Hp Hw; cbn [run].
  - unfold ret, res_silence. now rewrite Hw.
  - pose proof (step_silence p1 p2 c i w1 w2 Hp Hw) as Hs.
    unfold bind.
    destruct (step p1 c i w1) as [c1 v1 | x1 v1];
      destruct (step p2 c i w2) as [c2 v2 | x2 v2];
      unfold res_silence in Hs; try discriminate.
    + assert (c1 = c2) by congruence. subst c2.
      apply IH; [exact Hp | congruence].
    + exact Hs.
Qed.

Lemma mount_silence p1 p2 w1 w2 :
  same_drawing_props p1 p2 -> silence w1 = silence w2 ->
  res_silence (mount p1 w1) = res_silence (mount p2 w2).
Proof.
  intros Hp Hw.
  assert (Hc : canvasRef w1 = canvasRef w2).
  { change (canvasRef (silence w1) = canvasRef (silence w2)). now rewrite Hw. }
  destruct (canvasRef w1) as [cv |] eqn:C1.
  - rewrite (mount_ok p1 w1 cv C1), (mount_ok p2 w2 cv (eq_sym Hc)).
    unfold res_silence.
    rewrite !log_world_silence, !after_resize_silence.
    now rewrite Hw, (after_resize_props p1 p2 _ _ _ Hp).
  - rewrite (mount_null p1 w1 C1), (mount_null p2 w2 (eq_sym Hc)).
    unfold res_silence. now rewrite Hw.
Qed.

Lemma session_silence p1 p2 w0 inputs :
  same_drawing_props p1 p2 ->
  res_silence (session p1 w0 inputs) = res_silence (session p2 w0 inputs).
Proof.
  intros Hp. unfold session, bind.
  pose proof (mount_silence p1 p2 w0 w0 Hp eq_refl) as Hm.
  destruct (mount p1 w0) as [c1 v1 | x1 v1];
    destruct (mount p2 w0) as [c2 v2 | x2 v2];
    unfold res_silence in Hm; try discriminate.
  - assert (c1 = c2) by congruence. subst c2.
    apply run_silence; [exact Hp | congruence].
  - exact Hm.
Qed.

(** C9: a qualifying move (stroke active, distance above the threshold)
    appends the candidate to the recorded path for every value of
    [recordPoints], false and unset included.  The flag reaches nothing but
    the console: sessions that differ in it alone end in the same component
    state and the same world once the console is set aside. *)
Theorem move_appends_whatever_recordPoints props c w e p q :
  reachable props c w ->
  is_move e = true ->
  drawing (state c) = true ->
  position (state c) = Some p ->
  getCoordinates e w = Ok (Some q) w ->
  (IZR (threshold props) < getDistance p q)%R ->
  (exists c' w', step props c (Dom e) w = Ok c' w' /\
                 data (state c') = data (state c) ++ [q]) /\
  (forall rp w0 inputs,
      res_silence (session props w0 inputs) =
      res_silence (session (mkProps rp (threshold props) (lineWidth props))
                           w0 inputs)).
Proof.
  intros R Hm D P G Hgt. split.
  - apply getDistance_gtb_spec in Hgt.
    destruct (step_move_far props c e w p q (reachable_fresh props c w R)
                Hm D P G Hgt) as (c' & Hs & St).
    exists c', (after_drawLine props p q w).
    split; [exact Hs |]. rewrite St. reflexivity.
  - intros rp w0 inputs. apply session_silence. split; reflexivity.
Qed.

Lemma move_appends_whatever_recordPoints_witness :
  recordPoints quietProps = None /\
  exists c w,
    session quietProps world0
            [Dom (mouse "mousedown" 0 0); Dom (mouse "mousemove" 5 5)]
    = Ok c w /\
    exists c' w',
      step quietProps c (Dom (mouse "mousemove" 10 10)) w = Ok c' w' /\
      data (state c') = [pt 5 5] ++ [pt 10 10].
Proof.
  split; [reflexivity |].
  eexists. eexists. split; [reflexivity |].
  match goal with
  | |- exists c' w', step _ ?c _ ?w = _ /\ _ =>
      assert (R : reachable quietProps c w)
  end.
  { apply (session_reachable quietProps world0
             [Dom (mouse "mousedown" 0 0); Dom (mouse "mousemove" 5 5)]).
    reflexivity. }
  apply (proj1 (move_appends_whatever_recordPoints quietProps _ _
                  (mouse "mousemove" 10 10) (pt 5 5) (pt 10 10)
                  R eq_refl eq_refl eq_refl eq_refl
                  (proj1 (getDistance_gtb_spec (pt 5 5) (pt 10 10) 4) eq_refl))).
Defined.

(** ** Recording disabled *)

(** A session with [recordPoints] unset: after one stroke the path holds two
    points and the resize replays one segment. *)
Lemma recording_off_resize_replays :
  truthy (recordPoints quietProps) = false /\
  exists c w w',
    session quietProps world0 (map Dom sampleStroke) = Ok c w /\
    step quietProps c (WindowResize 400 300) w = Ok c w' /\
    data (state c) = [pt 5 5; pt 10 10] /\
    data (state c) <> [] /\
    calls w' = calls w ++ [(pt 5 5, pt 10 10)] /\
    calls w' <> calls w.
Proof.
  split; [reflexivity |].
  eexists. eexists. eexists.
  split; [reflexivity |]. split; [reflexivity |].
  split; [reflexivity |]. split; [discriminate |].
  split; [reflexivity |]. discriminate.
Qed.

(** ** Unavailable native resources *)

(** The resize handler on a null canvas element. *)
Lemma resize_on_null_canvas_throws :
  canvasRef (mkWorld None (800, 600) None [] []) = None /\
  resizeCanvas homeProps [] None (mkWorld None (800, 600) None [] [])
  = Throw TypeError (mkWorld None (800, 600) None [] []) /\
  step homeProps mounted (WindowResize 400 300)
       (mkWorld None (800, 600) None [] [])
  = Throw TypeError (mkWorld None (400, 300) None [] []).
Proof. repeat split. Qed.

Lemma getCoordinates_null e w :
  canvasRef w = None -> getCoordinates e w = Ok None w.
Proof. intros H. unfold getCoordinates. now rewrite H. Qed.

Lemma handler_ok_unavailable props c e w :
  canvasRef w = None \/ wf_event e = true ->
  exists ups w1, handler props c e w = Ok ups w1.
Proof.
  intros [Hn | Hwf]; [| now apply handler_ok].
  pose proof (getCoordinates_null e w Hn) as G.
  unfold handler, onDown, onUp, onMove, bind, ret.
  destruct (is_down e); [rewrite G; eauto |].
  destruct (is_up e); [eauto |].
  destruct (is_move e); [| eauto].
  destruct (drawing (onMove_closure c)); [| eauto].
  rewrite G. destruct (position (onMove_closure c)); eauto.
Qed.

Lemma resizeCanvas_no_context props d cv w :
  context2d cv = None ->
  exists r, resizeCanvas props d (Some cv) w = Ok r w.
Proof.
  intros Hk. unfold resizeCanvas, bind, get.
  destruct (viewport w) as [bw bh].
  destruct (negb (width cv =? bw) || negb (height cv =? bh));
    [rewrite Hk |]; eauto.
Qed.

(** C5, as the code has it: every operation treats a missing 2D context as
    a silent skip, and every operation except the resize handler treats a
    missing canvas element the same way: [drawLine] draws nothing,
    [getCoordinates] yields null, the pointer listeners complete and leave
    the canvas as it was, and the resize handler, given an element without a
    context, returns without touching it.  The resize handler takes the
    element as present and is not guarded against a null one. *)
Theorem unavailable_resource_is_skipped props c w e p q :
  unavailable w ->
  canvasRef w = None \/ wf_event e = true ->
  drawLine props p q w = Ok tt (add_call p q w) /\
  (canvasRef w = None -> getCoordinates e w = Ok None w) /\
  (exists c' w', step props c (Dom e) w = Ok c' w' /\
                 canvasRef w' = canvasRef w) /\
  (forall cv vw vh,
      canvasRef w = Some cv ->
      (exists r, resizeCanvas props (data (state c)) (Some cv)
                              (set_viewport (vw, vh) w)
                 = Ok r (set_viewport (vw, vh) w)) /\
      step props c (WindowResize vw vh) w = Ok c (set_viewport (vw, vh) w)).
Proof.
  intros U Hwf. split; [| split; [| split]].
  - rewrite drawLine_ok. now rewrite after_drawLine_unavailable.
  - apply getCoordinates_null.
  - destruct (handler_ok_unavailable props c e w Hwf) as (ups & w1 & Hh).
    exists (render c ups), (after_render props c (render c ups) w1).
    split; [apply (step_dom _ _ _ _ _ _ Hh) |].
    destruct (after_render_frame props c (render c ups) w1) as [_ ->].
    apply handler_handled in Hh.
    inversion Hh; subst; try reflexivity.
    now rewrite after_drawLine_unavailable.
  - intros cv vw vh Hc.
    destruct U as [Hn | (cv' & Hc' & Hk)]; [congruence |].
    assert (cv' = cv) by congruence. subst cv'.
    split; [now apply resizeCanvas_no_context |].
    rewrite (step_resize props c vw vh w cv Hc).
    unfold after_resize, replay_runs. rewrite Hk, andb_false_r. reflexivity.
Qed.

Lemma unavailable_resource_is_skipped_witness :
  drawLine homeProps (pt 0 0) (pt 5 5) noContextWorld
  = Ok tt (add_call (pt 0 0) (pt 5 5) noContextWorld) /\
  step homeProps mounted (WindowResize 400 300) noContextWorld
  = Ok mounted (set_viewport (400, 300) noContextWorld).
Proof.
  destruct (unavailable_resource_is_skipped homeProps mounted noContextWorld
              (mouse "mousemove" 5 5) (pt 0 0) (pt 5 5))
    as (Hd & _ & _ & Hr).
  - right. exists (mkCanvas 0 0 300 150 None). split; reflexivity.
  - right. reflexivity.
  - split; [exact Hd |].
    exact (proj2 (Hr (mkCanvas 0 0 300 150 None) 400 300 eq_refl)).
Defined.

(** ** The coordinate mapper *)

Lemma getCoordinates_touch_uses_page :
  getCoordinates scrolledTouch world0 = Ok (Some (pt 10 520)) world0 /\
  getCoordinates_spec scrolledTouch world0 = Some (pt 10 20) /\
  getCoordinates scrolledTouch world0 <>
  Ok (getCoordinates_spec scrolledTouch world0) world0.
Proof. repeat split. discriminate. Qed.

(** C6, as the code has it: on a mounted canvas the mapper returns, for a
    touch event, the page coordinates of the first contact point minus the
    offset of the canvas, and for any other event its client coordinates
    minus that offset; on a null canvas it returns null; it never changes
    the world.  Where the event is not a touch event the result is the one
    the specification words. *)
Theorem getCoordinates_maps e w :
  (forall cv t ts,
      canvasRef w = Some cv -> is_touch e = true -> touches e = t :: ts ->
      getCoordinates e w =
      Ok (Some (mkCoordinates (pageX t - offsetLeft cv)
                              (pageY t - offsetTop cv))) w) /\
  (forall cv,
      canvasRef w = Some cv -> is_touch e = false ->
      getCoordinates e w =
      Ok (Some (mkCoordinates (clientX e - offsetLeft cv)
                              (clientY e - offsetTop cv))) w /\
      getCoordinates e w = Ok (getCoordinates_spec e w) w) /\
  (canvasRef w = None -> getCoordinates e w = Ok None w) /\
  (forall r w', getCoordinates e w = Ok r w' -> w' = w).
Proof.
  split; [| split; [| split]].
  - intros cv t ts Hc Ht Hl. unfold getCoordinates. now rewrite Hc, Ht, Hl.
  - intros cv Hc Ht. unfold getCoordinates, getCoordinates_spec, clientPoint.
    rewrite Hc, Ht. split; reflexivity.
  - apply getCoordinates_null.
  - apply getCoordinates_pure.
Qed.

Lemma getCoordinates_maps_witness :
  getCoordinates scrolledTouch offsetWorld = Ok (Some (pt 7 516)) offsetWorld /\
  getCoordinates (mouse "mousedown" 30 40) offsetWorld
  = Ok (Some (pt 27 36)) offsetWorld /\
  getCoordinates (mouse "mousedown" 30 40) (mkWorld None (800, 600) None [] [])
  = Ok None (mkWorld None (800, 600) None [] []).
Proof.
  split; [| split].
  - exact (proj1 (getCoordinates_maps scrolledTouch offsetWorld)
                 (mkCanvas 3 4 300 150 (Some [])) (mkTouch 10 20 10 520) []
                 eq_refl eq_refl eq_refl).
  - exact (proj1 (proj1 (proj2 (getCoordinates_maps (mouse "mousedown" 30 40)
                                  offsetWorld))
                        (mkCanvas 3 4 300 150 (Some [])) eq_refl eq_refl)).
  - exact (proj1 (proj2 (proj2 (getCoordinates_maps (mouse "mousedown" 30 40)
                                  (mkWorld None (800, 600) None [] []))))
                 eq_refl).
Defined.

(** * Further properties of the handlers *)

(** ** Pointer up *)

(** X1: an up event always ends in the idle state with no current position,
    whatever the state before; it keeps the path, renders nothing and
    leaves the canvas alone. *)
Theorem up_always_idles props c w e :
  is_up e = true ->
  exists c' w',
    step props c (Dom e) w = Ok c' w' /\
    drawing (state c') = false /\
    position (state c') = None /\
    data (state c') = data (state c) /\
    calls w' = calls w /\
    canvasRef w' = canvasRef w.
Proof.
  intros Hu. pose proof (handler_up props c e w Hu) as Hh.
  exists (render c [SetDrawing false; SetPosition None]).
  eexists. split; [apply (step_dom _ _ _ _ _ _ Hh) |].
  rewrite render_state. cbn.
  destruct (after_render_frame props c
              (render c [SetDrawing false; SetPosition None]) w) as [A B].
  auto.
Qed.

Lemma up_always_idles_witness :
  exists c' w',
    step homeProps
         (mkComponent (mkState true (Some (pt 1 2)) 4 [pt 1 2])
                      (mkState true (Some (pt 1 2)) 4 [pt 1 2]))
         (Dom (mkEvent "touchend" [] 0 0)) world0 = Ok c' w' /\
    drawing (state c') = false /\ position (state c') = None.
Proof.
  destruct (up_always_idles homeProps
              (mkComponent (mkState true (Some (pt 1 2)) 4 [pt 1 2])
                           (mkState true (Some (pt 1 2)) 4 [pt 1 2]))
              world0 (mkEvent "touchend" [] 0 0) eq_refl)
    as (c' & w' & Hs & Hd & Hp & _).
  exists c', w'. auto.
Defined.

(** ** Idle means no position *)

Lemma handled_idle props c w ups w1 :
  fresh c -> handled props c w ups w1 ->
  (drawing (state c) = false -> position (state c) = None) ->
  drawing (fold_left apply_update ups (state c)) = false ->
  position (fold_left apply_update ups (state c)) = None.
Proof.
  unfold fresh. intros F H I.
  inversion H as [| q | | p q D P G]; subst; cbn.
  - exact I.
  - discriminate.
  - reflexivity.
  - rewrite F in D. congruence.
Qed.

(** X2: in every reachable state an idle session has no current position:
    together with C10, the position is non-null exactly while drawing. *)
Theorem idle_has_no_position props c w :
  reachable props c w ->
  drawing (state c) = false -> position (state c) = None.
Proof.
  induction 1 as [w0 c w Hm | c w i c' w' R IH Hs].
  - apply mount_inv in Hm. destruct Hm as [-> _]. reflexivity.
  - pose proof (reachable_fresh props c w R) as F.
    destruct i as [e | vw vh].
    + apply step_dom_inv in Hs. destruct Hs as (ups & w1 & Hh & -> & _).
      rewrite render_state.
      eapply handled_idle; [exact F | eapply handler_handled; exact Hh | exact IH].
    + unfold step, bind, useWindowSize in Hs.
      destruct (resizeEffect props (state c) (set_viewport (vw, vh) w));
        [| discriminate].
      cbn in Hs. inversion Hs; subst. exact IH.
Qed.

Lemma idle_has_no_position_witness :
  exists c w,
    session homeProps world0 (map Dom sampleStroke) = Ok c w /\
    drawing (state c) = false /\ position (state c) = None.
Proof.
  eexists. eexists. split; [reflexivity |]. split; [reflexivity |].
  eapply idle_has_no_position; [| reflexivity].
  apply (session_reachable homeProps world0 (map Dom sampleStroke)).
  reflexivity.
Defined.

(** ** The memoised move handler *)

(** X3: [onMove] is memoised on [[drawing, position]] only, yet in every
    reachable state the closure in use holds the state of the latest
    render, [data] included: it never appends to a stale path. *)
Theorem onMove_closure_is_current props c w :
  reachable props c w -> onMove_closure c = state c.
Proof. apply reachable_fresh. Qed.

Lemma onMove_closure_is_current_witness :
  exists c w,
    session homeProps world0 (map Dom sampleStroke) = Ok c w /\
    onMove_closure c = state c.
Proof.
  eexists. eexists. split; [reflexivity |].
  eapply onMove_closure_is_current.
  apply (session_reachable homeProps world0 (map Dom sampleStroke)).
  reflexivity.
Defined.

(** X4: a move event while no stroke is active changes nothing, neither
    the component nor the world; the event is not even mapped, so this
    holds for a touch event without contact points too. *)
Theorem move_while_idle_is_ignored props c w e :
  reachable props c w ->
  drawing (state c) = false ->
  is_move e = true ->
  step props c (Dom e) w = Ok c w.
Proof.
  intros R D Hm. pose proof (reachable_fresh props c w R) as F.
  destruct (is_move_not_down_up e Hm) as [Hd Hu].
  assert (Hh : handler props c e w = Ok [] w).
  { unfold handler, onMove. rewrite Hd, Hu, Hm, F, D. reflexivity. }
  rewrite (step_dom _ _ _ _ _ _ Hh), (render_nil c F).
  unfold after_render. now rewrite Bool.eqb_reflx.
Qed.

Lemma move_while_idle_is_ignored_witness :
  exists c w,
    session homeProps world0 [] = Ok c w /\
    step homeProps c (Dom (mkEvent "touchmove" [] 0 0)) w = Ok c w.
Proof.
  eexists. eexists. split; [reflexivity |].
  eapply move_while_idle_is_ignored; [| reflexivity | reflexivity].
  apply (session_reachable homeProps world0 []). reflexivity.
Defined.

(** ** The path only grows *)

Lemma step_data_grows props c i w c' w' :
  fresh c -> step props c i w = Ok c' w' ->
  exists l, data (state c') = data (state c) ++ l /\
            (List.length l <= 1)%nat.
Proof.
  unfold fresh. intros F H. destruct i as [e | vw vh].
  - apply step_dom_inv in H. destruct H as (ups & w1 & Hh & -> & _).
    rewrite render_state. apply handler_handled in Hh.
    inversion Hh; subst; cbn.
    + exists []. rewrite app_nil_r. split; [reflexivity | cbn; lia].
    + exists []. rewrite app_nil_r. split; [reflexivity | cbn; lia].
    + exists []. rewrite app_nil_r. split; [reflexivity | cbn; lia].
    + exists [q]. rewrite F. split; [reflexivity | cbn; lia].
  - unfold step, bind, useWindowSize in H.
    destruct (resizeEffect props (state c) (set_viewport (vw, vh) w));
      [| discriminate].
    cbn in H. inversion H; subst. exists []. rewrite app_nil_r.
    split; [reflexivity | cbn; lia].
Qed.

Lemma run_data_grows props inputs : forall c w c' w',
  fresh c -> run props c inputs w = Ok c' w' ->
  exists l, data (state c') = data (state c) ++ l /\
            (List.length l <= List.length inputs)%nat.
Proof.
  induction inputs as [| i rest IH]; intros c w c' w' F H; cbn in H.
  - inversion H; subst. exists []. rewrite app_nil_r. split; [reflexivity | cbn; lia].
  - unfold bind in H.
    destruct (step props c i w) as [c1 w1 | ex w1] eqn:Hs; [| discriminate].
    destruct (step_data_grows props c i w c1 w1 F Hs) as (l1 & E1 & L1).
    destruct (IH c1 w1 c' w' (step_fresh props c i w c1 w1 F Hs) H)
      as (l2 & E2 & L2).
    exists (l1 ++ l2). rewrite E2, E1, <- app_assoc.
    split; [reflexivity |]. rewrite length_app. cbn [List.length]. lia.
Qed.

(** X5: the recorded path only grows.  From a reachable state, whatever
    inputs follow (strokes and resizes), the path afterwards is the path
    before with points appended at its end, at most one per input: it is
    never cleared, shortened or reordered. *)
Theorem path_only_grows props c w inputs c' w' :
  reachable props c w ->
  run props c inputs w = Ok c' w' ->
  exists l, data (state c') = data (state c) ++ l /\
            (List.length l <= List.length inputs)%nat.
Proof.
  intros R. apply run_data_grows. exact (reachable_fresh props c w R).
Qed.

Lemma path_only_grows_witness :
  exists c w,
    session homeProps world0 [Dom (mouse "mousedown" 0 0)] = Ok c w /\
    exists l,
      run homeProps c [Dom (mouse "mousemove" 5 5); WindowResize 400 300] w
      = Ok (mkComponent (mkState true (Some (pt 5 5)) 2 [pt 5 5])
                        (mkState true (Some (pt 5 5)) 2 [pt 5 5]))
           (mkWorld (Some (mkCanvas 0 0 400 300 (Some [Scale 1 1])))
                    (400, 300) None [(pt 0 0, pt 5 5)] [[]]) /\
      [pt 5 5] = data (state c) ++ l.
Proof.
  eexists. eexists. split; [reflexivity |].
  match goal with
  | |- exists l, run _ ?c _ ?w = _ /\ _ =>
      assert (R : reachable homeProps c w)
  end.
  { apply (session_reachable homeProps world0 [Dom (mouse "mousedown" 0 0)]).
    reflexivity. }
  destruct (path_only_grows homeProps _ _
              [Dom (mouse "mousemove" 5 5); WindowResize 400 300]
              (mkComponent (mkState true (Some (pt 5 5)) 2 [pt 5 5])
                           (mkState true (Some (pt 5 5)) 2 [pt 5 5]))
              (mkWorld (Some (mkCanvas 0 0 400 300 (Some [Scale 1 1])))
                       (400, 300) None [(pt 0 0, pt 5 5)] [[]])
              R eq_refl) as (l & Hl & _).
  exists l. split; [reflexivity | exact Hl].
Defined.

(** ** Rendered segments and the threshold *)

Lemma step_dom_longer props c e w c' w' :
  Forall (longer_than (threshold props)) (calls w) ->
  step props c (Dom e) w = Ok c' w' ->
  Forall (longer_than (threshold props)) (calls w').
Proof.
  intros I H. apply step_dom_inv in H.
  destruct H as (ups & w1 & Hh & -> & ->).
  destruct (after_render_frame props c (render c ups) w1) as [-> _].
  apply handler_handled in Hh. inversion Hh; subst; try exact I.
  rewrite after_drawLine_calls. apply Forall_app. split; [exact I |].
  constructor; [| constructor].
  unfold longer_than. cbn. now apply getDistance_gtb_spec.
Qed.

Lemma run_dom_longer props es : forall c w c' w',
  Forall (longer_than (threshold props)) (calls w) ->
  run props c (map Dom es) w = Ok c' w' ->
  Forall (longer_than (threshold props)) (calls w').
Proof.
  induction es as [| e es IH]; intros c w c' w' I H; cbn [map run] in H.
  - inversion H; subst. exact I.
  - unfold bind in H.
    destruct (step props c (Dom e) w) as [c1 w1 | ex w1] eqn:Hs; [| discriminate].
    eapply IH; [| exact H]. eapply step_dom_longer; eassumption.
Qed.

(** X6: every segment rendered in answer to pointer events is strictly
    longer than the threshold: after mounting and any sequence of down,
    move and up events, each stroke-render call joins two points whose
    distance exceeds [threshold]. *)
Theorem rendered_segments_exceed_threshold props w0 es c w :
  calls w0 = [] ->
  session props w0 (map Dom es) = Ok c w ->
  Forall (longer_than (threshold props)) (calls w).
Proof.
  intros H0 H. unfold session, bind in H.
  destruct (mount props w0) as [c0 w1 | ex w1] eqn:Hm; [| discriminate].
  destruct (mount_inv props w0 c0 w1 Hm) as (_ & Hc & _).
  eapply run_dom_longer; [| exact H]. rewrite Hc, H0. constructor.
Qed.

Lemma rendered_segments_exceed_threshold_witness :
  exists c w,
    session homeProps world0 (map Dom sampleStroke) = Ok c w /\
    calls w = [(pt 0 0, pt 5 5); (pt 5 5, pt 10 10)] /\
    Forall (longer_than 4) (calls w).
Proof.
  eexists. eexists. split; [reflexivity |]. split; [reflexivity |].
  apply (rendered_segments_exceed_threshold homeProps world0 sampleStroke
           _ _ eq_refl eq_refl).
Defined.

(** X7: the threshold at its edges.  With a threshold of zero or more a
    move that maps to the current position itself is never rendered; with
    a negative threshold every mapped move during a stroke is rendered and
    recorded, the one to the current position included. *)
Theorem threshold_edge_cases props c w e p q :
  reachable props c w ->
  is_move e = true ->
  drawing (state c) = true ->
  position (state c) = Some p ->
  getCoordinates e w = Ok (Some q) w ->
  (0 <= threshold props -> q = p -> step props c (Dom e) w = Ok c w) /\
  (threshold props < 0 ->
   exists c', step props c (Dom e) w = Ok c' (after_drawLine props p q w) /\
              position (state c') = Some q /\
              data (state c') = data (state c) ++ [q]).
Proof.
  intros R Hm D P G. pose proof (reachable_fresh props c w R) as F. split.
  - intros Ht ->. eapply step_move_near; try eassumption.
    unfold getDistance_gtb, sqDistance.
    apply orb_false_iff. split; [apply Z.ltb_ge; lia | apply Z.ltb_ge; nia].
  - intros Ht.
    destruct (step_move_far props c e w p q F Hm D P G) as (c' & Hs & St).
    { unfold getDistance_gtb. apply orb_true_iff. left. now apply Z.ltb_lt. }
    exists c'. rewrite St. cbn. auto.
Qed.

Lemma threshold_edge_cases_witness :
  (exists c w,
      session homeProps world0 [Dom (mouse "mousedown" 7 7)] = Ok c w /\
      step homeProps c (Dom (mouse "mousemove" 7 7)) w = Ok c w) /\
  (exists c w,
      session (mkProps None (-1) 3) world0 [Dom (mouse "mousedown" 7 7)]
      = Ok c w /\
      exists c',
        step (mkProps None (-1) 3) c (Dom (mouse "mousemove" 7 7)) w
        = Ok c' (after_drawLine (mkProps None (-1) 3) (pt 7 7) (pt 7 7) w) /\
        data (state c') = data (state c) ++ [pt 7 7]).
Proof.
  split.
  - eexists. eexists. split; [reflexivity |].
    match goal with
    | |- step _ ?c _ ?w = _ => assert (R : reachable homeProps c w)
    end.
    { apply (session_reachable homeProps world0 [Dom (mouse "mousedown" 7 7)]).
      reflexivity. }
    apply (proj1 (threshold_edge_cases homeProps _ _ (mouse "mousemove" 7 7)
                    (pt 7 7) (pt 7 7) R eq_refl eq_refl eq_refl eq_refl)).
    + cbn. lia.
    + reflexivity.
  - eexists. eexists. split; [reflexivity |].
    match goal with
    | |- exists c', step _ ?c _ ?w = _ /\ _ =>
        assert (R : reachable (mkProps None (-1) 3) c w)
    end.
    { apply (session_reachable (mkProps None (-1) 3) world0
               [Dom (mouse "mousedown" 7 7)]).
      reflexivity. }
    destruct (proj2 (threshold_edge_cases (mkProps None (-1) 3) _ _
                       (mouse "mousemove" 7 7) (pt 7 7) (pt 7 7)
                       R eq_refl eq_refl eq_refl eq_refl))
      as (c' & Hs & _ & Hd).
    + cbn. lia.
    + exists c'. split; [exact Hs | exact Hd].
Defined.

(** ** The distance *)

Lemma sqDistance_sym p q : sqDistance p q = sqDistance q p.
Proof. unfold sqDistance. ring. Qed.

(** X8: [getDistance] is symmetric, is zero exactly between a point and
    itself, and so is the threshold test built on it. *)
Theorem getDistance_symmetric_and_definite p q t :
  getDistance p q = getDistance q p /\
  (getDistance p q = 0%R <-> p = q) /\
  getDistance_gtb p q t = getDistance_gtb q p t.
Proof.
  split; [| split].
  - unfold getDistance. now rewrite sqDistance_sym.
  - unfold getDistance. split.
    + intros H. apply sqrt_eq_0 in H.
      2:{ apply IZR_le. apply sqDistance_nonneg. }
      apply eq_IZR in H. unfold sqDistance in H.
      destruct p as [a b], q as [a' b']. cbn [x y] in H.
      rewrite !Z.pow_2_r in H.
      pose proof (Z.square_nonneg (a' - a)) as Sa.
      pose proof (Z.square_nonneg (b' - b)) as Sb.
      assert (Ea : (a' - a) * (a' - a) = 0) by lia.
      assert (Eb : (b' - b) * (b' - b) = 0) by lia.
      apply Z.mul_eq_0 in Ea, Eb.
      f_equal; lia.
    + intros ->. unfold sqDistance.
      replace ((x q - x q) ^ 2 + (y q - y q) ^ 2) with 0 by ring.
      apply sqrt_0.
  - unfold getDistance_gtb. now rewrite sqDistance_sym.
Qed.

(** ** The mapping and the distance *)

(** X9: the distance between two mapped points does not depend on where
    the canvas sits: the same two events mapped on canvases with different
    offsets are equally far apart, so the threshold test gives the same
    answer. *)
Theorem mapped_distance_ignores_offset e1 e2 w w' p1 p2 p1' p2' t :
  getCoordinates e1 w = Ok (Some p1) w ->
  getCoordinates e2 w = Ok (Some p2) w ->
  getCoordinates e1 w' = Ok (Some p1') w' ->
  getCoordinates e2 w' = Ok (Some p2') w' ->
  getDistance p1 p2 = getDistance p1' p2' /\
  getDistance_gtb p1 p2 t = getDistance_gtb p1' p2' t.
Proof.
  unfold getCoordinates. intros H1 H2 H1' H2'.
  destruct (canvasRef w) as [cv |]; [| discriminate].
  destruct (canvasRef w') as [cv' |]; [| discriminate].
  assert (E : sqDistance p1 p2 = sqDistance p1' p2').
  { destruct (is_touch e1); [destruct (touches e1); [discriminate |] |];
      destruct (is_touch e2); [destruct (touches e2); [discriminate |] | |
                               destruct (touches e2); [discriminate |] |];
      inversion H1; inversion H2; inversion H1'; inversion H2'; subst;
      unfold sqDistance; cbn; ring. }
  unfold getDistance, getDistance_gtb. now rewrite E.
Qed.

Lemma mapped_distance_ignores_offset_witness :
  getDistance (pt 27 36) (pt 7 516) = getDistance (pt 0 0) (pt (-20) 480).
Proof.
  exact (proj1 (mapped_distance_ignores_offset
                  (mouse "mousedown" 30 40) scrolledTouch offsetWorld
                  (mkWorld (Some (mkCanvas 30 40 300 150 (Some []))) (800, 600)
                           None [] [])
                  (pt 27 36) (pt 7 516) (pt 0 0) (pt (-20) 480) 4
                  eq_refl eq_refl eq_refl eq_refl)).
Defined.

(** * Further properties of resizing and logging *)

Lemma run_dom_path_inv props es : forall c w c' w',
  fresh c -> path_is_rendered c w ->
  run props c (map Dom es) w = Ok c' w' ->
  fresh c' /\ path_is_rendered c' w'.
Proof.
  induction es as [| e es IH]; intros c w c' w' F I H; cbn [map run] in H.
  - inversion H; subst. auto.
  - unfold bind in H.
    destruct (step props c (Dom e) w) as [c1 w1 | ex w1] eqn:Hs; [| discriminate].
    eapply IH; [| | exact H].
    + eapply step_fresh; eassumption.
    + eapply step_dom_path; eassumption.
Qed.

Lemma session_dom_path_inv props w0 es c w :
  calls w0 = [] -> session props w0 (map Dom es) = Ok c w ->
  fresh c /\ path_is_rendered c w.
Proof.
  intros H0 H. unfold session, bind in H.
  destruct (mount props w0) as [c0 w1 | ex w1] eqn:Hm; [| discriminate].
  destruct (mount_inv props w0 c0 w1 Hm) as (-> & Hc & _).
  eapply run_dom_path_inv; [| | exact H].
  - reflexivity.
  - unfold path_is_rendered. rewrite Hc, H0. reflexivity.
Qed.

(** X10: the replay after a resize is not the drawing that was on the
    canvas.  After pointer events that rendered n >= 1 segments, a resize
    whose replay runs redraws n - 1 segments, each from the end of one
    rendered segment to the end of the next: the start of every stroke is
    lost and separate strokes are joined. *)
Theorem replay_is_one_segment_short props w0 es c w cv vw vh :
  calls w0 = [] ->
  session props w0 (map Dom es) = Ok c w ->
  canvasRef w = Some cv ->
  context2d cv <> None ->
  width cv <> vw \/ height cv <> vh ->
  exists w',
    step props c (WindowResize vw vh) w = Ok c w' /\
    calls w' = calls w ++ segments (map snd (calls w)) /\
    (calls w <> [] ->
     S (List.length (segments (map snd (calls w)))) = List.length (calls w)).
Proof.
  intros H0 Hs Hc Hk Hd.
  destruct (session_dom_path_inv props w0 es c w H0 Hs) as [_ I].
  unfold path_is_rendered in I.
  eexists. split; [apply (step_resize props c vw vh w cv Hc) |].
  rewrite after_resize_calls. cbn [set_viewport viewport fst snd calls].
  rewrite (replay_runs_true cv vw vh Hk Hd), I.
  split; [reflexivity |].
  intros Hn. rewrite segments_length, length_map.
  destruct (calls w); [congruence | cbn; lia].
Qed.

Lemma replay_is_one_segment_short_witness :
  exists c w w',
    session homeProps world0 (map Dom sampleStroke) = Ok c w /\
    calls w = [(pt 0 0, pt 5 5); (pt 5 5, pt 10 10)] /\
    step homeProps c (WindowResize 400 300) w = Ok c w' /\
    calls w' = calls w ++ [(pt 5 5, pt 10 10)].
Proof.
  eexists. eexists.
  match goal with
  | |- exists w', session _ _ _ = Ok ?c ?w /\ _ =>
      assert (S0 : session homeProps world0 (map Dom sampleStroke) = Ok c w)
        by reflexivity
  end.
  destruct (replay_is_one_segment_short homeProps world0 sampleStroke _ _
              _ 400 300 eq_refl S0 eq_refl
              ltac:(discriminate) ltac:(left; discriminate))
    as (w' & Hs & Hc & _).
  exists w'. split; [exact S0 |]. split; [reflexivity |].
  split; [exact Hs | exact Hc].
Defined.

(** ** What a resize leaves on the canvas *)

Lemma after_drawLine_context props p q w cv ks :
  canvasRef w = Some cv -> context2d cv = Some ks ->
  after_drawLine props p q w =
  set_canvas (mkCanvas (offsetLeft cv) (offsetTop cv) (width cv) (height cv)
                       (Some (ks ++ line_calls props p q)))
             (add_call p q w).
Proof.
  intros Hc Hk. unfold after_drawLine, drawLine. cbn. rewrite Hc, Hk.
  unfold ctx_calls. rewrite Hk. reflexivity.
Qed.

Lemma drawAll_context props segs : forall w cv ks,
  canvasRef w = Some cv -> context2d cv = Some ks ->
  canvasRef (drawAll props segs w) =
  Some (mkCanvas (offsetLeft cv) (offsetTop cv) (width cv) (height cv)
                 (Some (ks ++ lines_calls props segs))).
Proof.
  induction segs as [| [p q] segs IH]; intros w cv ks Hc Hk.
  - cbn. rewrite app_nil_r, Hc. destruct cv; cbn in *. now subst.
  - cbn [drawAll fold_left fst snd].
    rewrite (after_drawLine_context props p q w cv ks Hc Hk).
    unfold drawAll in IH. erewrite IH; [| reflexivity | reflexivity].
    cbn. unfold lines_calls. cbn [flat_map fst snd].
    now rewrite <- app_assoc.
Qed.

Lemma step_resize_canvas props c w cv vw vh :
  canvasRef w = Some cv ->
  context2d cv <> None ->
  width cv <> vw \/ height cv <> vh ->
  exists w',
    step props c (WindowResize vw vh) w = Ok c w' /\
    canvasRef w' =
    Some (mkCanvas (offsetLeft cv) (offsetTop cv)
                   (vw * ratio_of w) (vh * ratio_of w)
                   (Some (Scale (ratio_of w) (ratio_of w)
                          :: lines_calls props (segments (data (state c)))))).
Proof.
  intros Hc Hk Hd.
  eexists. split; [apply (step_resize props c vw vh w cv Hc) |].
  unfold after_resize. cbn [set_viewport viewport fst snd].
  rewrite (replay_runs_true cv vw vh Hk Hd).
  destruct (context2d cv) as [ks |] eqn:E; [| congruence].
  rewrite (drawAll_context props _ _ (resized cv (ratio_of w) vw vh)
             [Scale (ratio_of w) (ratio_of w)]).
  - unfold resized, ctx_calls, assign_height, assign_width. cbn. rewrite E.
    reflexivity.
  - reflexivity.
  - unfold resized, ctx_calls, assign_height, assign_width. cbn. rewrite E.
    reflexivity.
Qed.

(** X11: when the replay runs, what was on the canvas is gone and the new
    content is a function of the recorded path alone: the backing size
    becomes the box times the device pixel ratio, the offsets are kept, and
    the context has received the scale followed by the strokes of the
    consecutive pairs of the path, nothing else. *)
Theorem resize_redraws_from_path_alone props c w cv vw vh :
  canvasRef w = Some cv ->
  context2d cv <> None ->
  width cv <> vw \/ height cv <> vh ->
  exists w',
    step props c (WindowResize vw vh) w = Ok c w' /\
    canvasRef w' =
    Some (mkCanvas (offsetLeft cv) (offsetTop cv)
                   (vw * ratio_of w) (vh * ratio_of w)
                   (Some (Scale (ratio_of w) (ratio_of w)
                          :: lines_calls props (segments (data (state c)))))).
Proof. apply step_resize_canvas. Qed.

Lemma resize_redraws_from_path_alone_witness :
  exists w',
    step homeProps
         (mkComponent (mkState false None 3 [pt 5 5; pt 10 10])
                      (mkState false None 3 [pt 5 5; pt 10 10]))
         (WindowResize 400 300)
         (mkWorld (Some (mkCanvas 3 4 800 600 (Some [Scale 1 1; Stroke; Stroke])))
                  (800, 600) (Some 2) [] [])
    = Ok (mkComponent (mkState false None 3 [pt 5 5; pt 10 10])
                      (mkState false None 3 [pt 5 5; pt 10 10])) w' /\
    canvasRef w' =
    Some (mkCanvas 3 4 800 600
                   (Some (Scale 2 2 :: line_calls homeProps (pt 5 5) (pt 10 10)))).
Proof.
  exact (resize_redraws_from_path_alone homeProps
           (mkComponent (mkState false None 3 [pt 5 5; pt 10 10])
                        (mkState false None 3 [pt 5 5; pt 10 10]))
           (mkWorld (Some (mkCanvas 3 4 800 600 (Some [Scale 1 1; Stroke; Stroke])))
                    (800, 600) (Some 2) [] [])
           (mkCanvas 3 4 800 600 (Some [Scale 1 1; Stroke; Stroke]))
           400 300 eq_refl ltac:(discriminate) ltac:(left; discriminate)).
Defined.

(** ** The guard of the resize handler *)

Lemma set_viewport_same v w : viewport w = v -> set_viewport v w = w.
Proof. intros <-. destruct w. reflexivity. Qed.

Lemma after_resize_viewport props d cv w :
  viewport (after_resize props d cv w) = viewport w /\
  devicePixelRatio (after_resize props d cv w) = devicePixelRatio w.
Proof.
  unfold after_resize. destruct (replay_runs cv _ _); [| auto].
  destruct (drawAll_frame props (segments d)
              (set_canvas (resized cv (ratio_of w) (fst (viewport w))
                                   (snd (viewport w))) w)) as (_ & B & C).
  auto.
Qed.

(** X12: the resize handler does nothing when the backing size already
    equals the box.  With a device pixel ratio of 1 (or none) it is
    therefore idempotent: repeating a resize to the same box leaves the
    canvas, the render calls and the rest of the world as they are. *)
Theorem resize_guard_and_idempotence props c w cv vw vh :
  canvasRef w = Some cv ->
  (width cv = vw -> height cv = vh ->
   step props c (WindowResize vw vh) w = Ok c (set_viewport (vw, vh) w)) /\
  (ratio_of w = 1 ->
   exists w1, step props c (WindowResize vw vh) w = Ok c w1 /\
              step props c (WindowResize vw vh) w1 = Ok c w1).
Proof.
  intros Hc. split.
  - intros Hw Hh. rewrite (step_resize props c vw vh w cv Hc).
    unfold after_resize, replay_runs. cbn [set_viewport viewport fst snd].
    rewrite (proj2 (Z.eqb_eq _ _) Hw), (proj2 (Z.eqb_eq _ _) Hh). reflexivity.
  - intros Hr.
    exists (after_resize props (data (state c)) cv (set_viewport (vw, vh) w)).
    split; [apply (step_resize props c vw vh w cv Hc) |].
    set (w1 := after_resize props (data (state c)) cv (set_viewport (vw, vh) w)).
    assert (Hv : viewport w1 = (vw, vh)).
    { unfold w1. now rewrite (proj1 (after_resize_viewport _ _ _ _)). }
    assert (Hc1 : exists cv1, canvasRef w1 = Some cv1 /\
                              replay_runs cv1 vw vh = false).
    { unfold w1, after_resize. cbn [set_viewport viewport fst snd].
      destruct (replay_runs cv vw vh) eqn:Er.
      - unfold replay_runs in Er. apply andb_true_iff in Er.
        destruct Er as [_ Ek].
        destruct (context2d cv) as [ks |] eqn:E; [| discriminate].
        rewrite (drawAll_context props _ _ (resized cv (ratio_of w) vw vh)
                   [Scale (ratio_of w) (ratio_of w)]).
        + eexists. split; [reflexivity |].
          unfold replay_runs, resized, ctx_calls, assign_height, assign_width.
          cbn. rewrite E. cbn.
          rewrite Hr, !Z.mul_1_r, !Z.eqb_refl. reflexivity.
        + reflexivity.
        + unfold resized, ctx_calls, assign_height, assign_width. cbn.
          rewrite E. reflexivity.
      - exists cv. split; [exact Hc | exact Er]. }
    destruct Hc1 as (cv1 & Hc1 & Er1).
    rewrite (step_resize props c vw vh w1 cv1 Hc1).
    rewrite (set_viewport_same (vw, vh) w1 Hv).
    unfold after_resize. rewrite Hv. cbn [fst snd]. now rewrite Er1.
Qed.

Lemma resize_guard_and_idempotence_witness :
  exists w1,
    step homeProps mounted (WindowResize 400 300) world0 = Ok mounted w1 /\
    step homeProps mounted (WindowResize 400 300) w1 = Ok mounted w1.
Proof.
  exact (proj2 (resize_guard_and_idempotence homeProps mounted world0
                  blankCanvas 400 300 eq_refl) eq_refl).
Defined.

(** X13: with a device pixel ratio other than 1 the guard never settles:
    the backing size left by a resize is the box times the ratio, so the
    next resize report for the very same (non-empty) box clears the canvas
    and replays the path again. *)
Theorem resize_repeats_when_ratio_is_not_one props c w cv vw vh :
  canvasRef w = Some cv ->
  context2d cv <> None ->
  width cv <> vw \/ height cv <> vh ->
  ratio_of w <> 1 ->
  vw <> 0 \/ vh <> 0 ->
  exists w1 w2,
    step props c (WindowResize vw vh) w = Ok c w1 /\
    step props c (WindowResize vw vh) w1 = Ok c w2 /\
    calls w2 = calls w1 ++ segments (data (state c)).
Proof.
  intros Hc Hk Hd Hr Hv.
  destruct (step_resize_canvas props c w cv vw vh Hc Hk Hd)
    as (w1 & Hs1 & Hc1).
  exists w1. eexists. split; [exact Hs1 |].
  split; [apply (step_resize props c vw vh w1 _ Hc1) |].
  rewrite after_resize_calls. cbn [set_viewport viewport fst snd calls].
  rewrite replay_runs_true; [reflexivity | cbn; discriminate |].
  cbn [width height].
  destruct Hv as [Hv | Hv]; [left | right]; nia.
Qed.

Lemma resize_repeats_when_ratio_is_not_one_witness :
  exists w1 w2,
    step homeProps
         (mkComponent (mkState false None 3 [pt 5 5; pt 10 10])
                      (mkState false None 3 [pt 5 5; pt 10 10]))
         (WindowResize 400 300) retinaWorld
    = Ok (mkComponent (mkState false None 3 [pt 5 5; pt 10 10])
                      (mkState false None 3 [pt 5 5; pt 10 10])) w1 /\
    step homeProps
         (mkComponent (mkState false None 3 [pt 5 5; pt 10 10])
                      (mkState false None 3 [pt 5 5; pt 10 10]))
         (WindowResize 400 300) w1
    = Ok (mkComponent (mkState false None 3 [pt 5 5; pt 10 10])
                      (mkState false None 3 [pt 5 5; pt 10 10])) w2 /\
    calls w2 = calls w1 ++ [(pt 5 5, pt 10 10)].
Proof.
  exact (resize_repeats_when_ratio_is_not_one homeProps
           (mkComponent (mkState false None 3 [pt 5 5; pt 10 10])
                        (mkState false None 3 [pt 5 5; pt 10 10]))
           retinaWorld blankCanvas 400 300 eq_refl
           ltac:(discriminate) ltac:(left; discriminate)
           ltac:(discriminate) ltac:(left; discriminate)).
Defined.

(** ** The debug log *)

(** X14: the test [data != []] of the logging effect never filters
    anything.  Mounting with recording enabled already prints the empty
    path; with recording off nothing is printed.  Mounting renders no
    segment. *)
Theorem mount_logs_empty_path props w0 cv :
  canvasRef w0 = Some cv ->
  exists w,
    mount props w0 = Ok mounted w /\
    console w = console w0 ++
                (if truthy (recordPoints props) then [[]] else []) /\
    calls w = calls w0.
Proof.
  intros Hc. eexists. split; [apply (mount_ok props w0 cv Hc) |].
  destruct (log_world_frame props initialState (after_resize props [] cv w0))
    as (_ & B & _).
  rewrite B, after_resize_calls. split.
  - unfold log_world. cbn [initialState drawing data negb].
    rewrite andb_true_r.
    destruct (truthy (recordPoints props)); cbn;
      rewrite after_resize_console; [reflexivity | now rewrite app_nil_r].
  - destruct (replay_runs _ _ _); cbn; now rewrite app_nil_r.
Qed.

Lemma mount_logs_empty_path_witness :
  exists w,
    mount homeProps world0 = Ok mounted w /\ console w = [[]] /\ calls w = [].
Proof.
  exact (mount_logs_empty_path homeProps world0 blankCanvas eq_refl).
Defined.

Lemma handled_console props c w ups w1 :
  handled props c w ups w1 -> console w1 = console w.
Proof.
  intros H. inversion H; subst; try reflexivity.
  now destruct (after_drawLine_frame props p q w) as (A & _).
Qed.

(** X15: the console is written at the end of a stroke and at no other
    time after mounting.  Any input handled leaves the console as it was,
    unless it is a DOM event that takes the component from drawing to idle
    with recording enabled, in which case exactly the recorded path is
    appended.  Moves, downs, ups while idle and resizes never log. *)
Theorem console_changes_only_at_stroke_end props c i w c' w' :
  step props c i w = Ok c' w' ->
  console w' = console w \/
  (drawing (state c) = true /\
   drawing (state c') = false /\
   truthy (recordPoints props) = true /\
   console w' = console w ++ [data (state c')] /\
   exists e, i = Dom e).
Proof.
  intros H. destruct i as [e | vw vh].
  - apply step_dom_inv in H. destruct H as (ups & w1 & Hh & Hc & ->).
    apply handler_handled in Hh.
    pose proof (handled_console props c w ups w1 Hh) as Hk.
    unfold after_render, log_world.
    destruct (Bool.eqb (drawing (state c')) (drawing (state c))) eqn:E;
      [left; exact Hk |].
    destruct (truthy (recordPoints props)) eqn:T; [| left; exact Hk].
    destruct (drawing (state c')) eqn:D'; [left; exact Hk |].
    destruct (drawing (state c)) eqn:D; [| discriminate].
    right. cbn. rewrite Hk. repeat split; eauto.
  - left. unfold step, bind, useWindowSize in H.
    destruct (canvasRef w) as [cv |] eqn:Hc.
    + rewrite (resizeEffect_mounted props (state c) (set_viewport (vw, vh) w)
                 cv Hc) in H.
      cbn in H. inversion H; subst. now rewrite after_resize_console.
    + rewrite resizeEffect_null in H by exact Hc. discriminate.
Qed.

Lemma console_changes_only_at_stroke_end_witness :
  exists c' w',
    step homeProps
         (mkComponent (mkState true (Some (pt 0 0)) 1 [])
                      (mkState true (Some (pt 0 0)) 1 []))
         (Dom (mouse "mousemove" 5 5)) world0 = Ok c' w' /\
    data (state c') = [pt 5 5] /\
    console w' = console world0.
Proof.
  eexists. eexists. split; [reflexivity |]. split; [reflexivity |].
  destruct (console_changes_only_at_stroke_end homeProps
              (mkComponent (mkState true (Some (pt 0 0)) 1 [])
                           (mkState true (Some (pt 0 0)) 1 []))
              (Dom (mouse "mousemove" 5 5)) world0 _ _ eq_refl)
    as [H | (_ & H & _)]; [exact H | discriminate H].
Defined.

(** ** Pointer events and the canvas *)

(** X16: pointer events never resize, move or clear the canvas.  A DOM
    event leaves the element's size and offsets and the viewport as they
    were; without a context the element is untouched, and with one every
    stroke-render call made puts exactly one more stroke on it. *)
Theorem pointer_events_only_add_strokes props c e w c' w' cv :
  step props c (Dom e) w = Ok c' w' ->
  canvasRef w = Some cv ->
  viewport w' = viewport w /\
  exists cv',
    canvasRef w' = Some cv' /\
    offsetLeft cv' = offsetLeft cv /\ offsetTop cv' = offsetTop cv /\
    width cv' = width cv /\ height cv' = height cv /\
    (context2d cv = None -> cv' = cv) /\
    (context2d cv <> None ->
     (strokes cv' + List.length (calls w) =
      strokes cv + List.length (calls w'))%nat).
Proof.
  intros H Hc. apply step_dom_inv in H.
  destruct H as (ups & w1 & Hh & _ & ->).
  apply handler_handled in Hh.
  destruct (after_render_frame props c c' w1) as [A B].
  assert (V : viewport (after_render props c c' w1) = viewport w1).
  { unfold after_render. destruct (Bool.eqb _ _); [reflexivity |].
    now destruct (log_world_frame props (state c') w1) as (_ & _ & V). }
  rewrite A, B, V.
  inversion Hh; subst.
  1-3: (split; [reflexivity |]; exists cv; repeat split; auto).
  destruct (after_drawLine_frame props p q w) as (_ & V' & _).
  split; [exact V' |].
  destruct (after_drawLine_canvas props p q w cv Hc)
    as (cv' & Hcv & L & T & W & Hh' & N & S').
  exists cv'. rewrite after_drawLine_calls, length_app. cbn [List.length].
  repeat split; auto.
  intros Hk. destruct (S' Hk) as [_ Hs]. lia.
Qed.

Lemma pointer_events_only_add_strokes_witness :
  exists c' w' cv',
    step homeProps
         (mkComponent (mkState true (Some (pt 0 0)) 1 [])
                      (mkState true (Some (pt 0 0)) 1 []))
         (Dom (mouse "mousemove" 5 5)) world0 = Ok c' w' /\
    canvasRef w' = Some cv' /\
    width cv' = 300 /\ height cv' = 150 /\ strokes cv' = 1%nat.
Proof.
  eexists. eexists.
  match goal with
  | |- exists cv', step ?p ?c ?i ?w = Ok ?c' ?w' /\ _ =>
      assert (S0 : step p c i w = Ok c' w') by reflexivity
  end.
  destruct (pointer_events_only_add_strokes homeProps _ _ world0 _ _
              blankCanvas S0 eq_refl)
    as (_ & cv' & H1 & _ & _ & Hw & Hh & _ & Hs).
  exists cv'. split; [exact S0 |]. split; [exact H1 |].
  split; [exact Hw |]. split; [exact Hh |].
  specialize (Hs ltac:(discriminate)). cbn in Hs. lia.
Defined.

(** ** Touch events without a contact point *)

(** X17: [getCoordinates] reads [touches[0]] unguarded.  On a mounted
    canvas a [touchstart], or a [touchmove] during a stroke, that carries
    no contact point raises a TypeError before any setter or render call:
    the world is as it was. *)
Theorem touch_without_contact_throws props c w e cv :
  canvasRef w = Some cv ->
  touches e = [] ->
  (type e = "touchstart" -> step props c (Dom e) w = Throw TypeError w) /\
  (type e = "touchmove" -> drawing (onMove_closure c) = true ->
   step props c (Dom e) w = Throw TypeError w).
Proof.
  intros Hc Ht.
  assert (G : is_touch e = true -> getCoordinates e w = Throw TypeError w).
  { intros Hi. unfold getCoordinates. now rewrite Hc, Hi, Ht. }
  split.
  - intros Hy. unfold step, bind, handler, onDown, bind, is_down.
    rewrite Hy. cbn. rewrite G; [reflexivity |].
    unfold is_touch. now rewrite Hy.
  - intros Hy D. unfold step, bind, handler, onMove, bind, is_down, is_up, is_move.
    rewrite Hy. cbn. rewrite D, G; [reflexivity |].
    unfold is_touch. now rewrite Hy.
Qed.

Lemma touch_without_contact_throws_witness :
  step homeProps mounted (Dom (mkEvent "touchstart" [] 0 0)) world0
  = Throw TypeError world0.
Proof.
  exact (proj1 (touch_without_contact_throws homeProps mounted world0
                  (mkEvent "touchstart" [] 0 0) blankCanvas eq_refl eq_refl)
               eq_refl).
Defined.

(** * The two variants compared *)

Lemma forget_fold ups : forall s,
  forget_state (fold_left apply_update ups s) =
  fold_left PainterBasic.apply_update (forget_updates ups) (forget_state s).
Proof.
  induction ups as [| u ups IH]; intros s; [reflexivity |].
  cbn [fold_left]. rewrite IH. unfold forget_updates. cbn [flat_map].
  rewrite fold_left_app. f_equal.
  destruct u as [b | [p |] | d]; reflexivity.
Qed.

Lemma forget_render c ups :
  forget (render c ups) = PainterBasic.render (forget c) (forget_updates ups).
Proof.
  unfold render, PainterBasic.render. cbn [forget PainterBasic.state
                                            PainterBasic.onMove_closure].
  rewrite <- forget_fold.
  change (PainterBasic.deps_eqb (forget_state (onMove_closure c))
            (forget_state (fold_left apply_update ups (state c))))
    with (deps_eqb (onMove_closure c) (fold_left apply_update ups (state c))).
  destruct (deps_eqb _ _); reflexivity.
Qed.

Lemma drawLine_basic props p q w :
  lineWidth props = 1 ->
  exists r, PainterBasic.drawLine p q w = Ok r (after_drawLine props p q w).
Proof.
  intros Hl. unfold PainterBasic.drawLine, after_drawLine, drawLine.
  rewrite Hl. cbn.
  destruct (canvasRef w) as [cv |]; [destruct (context2d cv) |]; eauto.
Qed.

Lemma handler_basic props c e w :
  threshold props < 0 -> lineWidth props = 1 ->
  PainterBasic.handler (forget c) e w =
  res_map forget_updates (handler props c e w).
Proof.
  intros Ht Hl.
  unfold PainterBasic.handler, handler, PainterBasic.onDown, onDown,
    PainterBasic.onUp, onUp, PainterBasic.onMove, onMove, bind, ret.
  cbn [forget PainterBasic.onMove_closure forget_state PainterBasic.drawing
         PainterBasic.position].
  destruct (is_down e).
  { destruct (getCoordinates e w) as [[q |] w1 | ex w1]; reflexivity. }
  destruct (is_up e); [reflexivity |].
  destruct (is_move e); [| reflexivity].
  destruct (drawing (onMove_closure c)); [| reflexivity].
  destruct (getCoordinates e w) as [r w1 | ex w1]; [| reflexivity].
  destruct (position (onMove_closure c)) as [p |]; [| reflexivity].
  destruct r as [q |]; [| reflexivity].
  assert (F : getDistance_gtb p q (threshold props) = true).
  { unfold getDistance_gtb. apply orb_true_iff. left. now apply Z.ltb_lt. }
  rewrite F, drawLine_ok.
  destruct (drawLine_basic props p q w1 Hl) as [r ->]. reflexivity.
Qed.

Lemma step_basic props c e w :
  threshold props < 0 -> lineWidth props = 1 ->
  truthy (recordPoints props) = false ->
  PainterBasic.step (forget c) e w = res_map forget (step props c (Dom e) w).
Proof.
  intros Ht Hl Hr. unfold PainterBasic.step, bind.
  rewrite (handler_basic props c e w Ht Hl).
  destruct (handler props c e w) as [ups w1 | ex w1] eqn:Hh.
  - rewrite (step_dom _ _ _ _ _ _ Hh). cbn [res_map].
    rewrite forget_render. unfold ret, after_render, log_world. rewrite Hr.
    now destruct (Bool.eqb _ _).
  - unfold step, bind. rewrite Hh. reflexivity.
Qed.

(** X18: the variant without threshold and path is the threshold variant
    with a negative threshold and a line width of 1, its path dropped: on
    the same pointer events, from corresponding states, both make the same
    render calls, leave the same canvas and reach the same drawing flag and
    position, or fail at the same event. *)
Theorem basic_variant_is_negative_threshold props c es w :
  threshold props < 0 ->
  lineWidth props = 1 ->
  truthy (recordPoints props) = false ->
  PainterBasic.run (forget c) es w =
  res_map forget (run props c (map Dom es) w).
Proof.
  intros Ht Hl Hr. revert c w.
  induction es as [| e es IH]; intros c w; [reflexivity |].
  cbn [PainterBasic.run map run]. unfold bind.
  rewrite (step_basic props c e w Ht Hl Hr).
  destruct (step props c (Dom e) w) as [c1 w1 | ex w1]; cbn [res_map].
  - apply IH.
  - reflexivity.
Qed.

Lemma basic_variant_is_negative_threshold_witness :
  PainterBasic.run (forget mounted)
                   [mouse "mousedown" 0 0; mouse "mousemove" 1 1;
                    mouse "mouseup" 1 1] world0
  = res_map forget
            (run (mkProps None (-1) 1) mounted
                 (map Dom [mouse "mousedown" 0 0; mouse "mousemove" 1 1;
                           mouse "mouseup" 1 1]) world0).
Proof.
  apply (basic_variant_is_negative_threshold (mkProps None (-1) 1) mounted
           [mouse "mousedown" 0 0; mouse "mousemove" 1 1; mouse "mouseup" 1 1]
           world0); [cbn; lia | reflexivity | reflexivity].
Defined.

(** * Recording disabled, resized *)

Lemma step_dom_console_quiet props c e w c' w' :
  truthy (recordPoints props) = false ->
  step props c (Dom e) w = Ok c' w' -> console w' = console w.
Proof.
  intros Hr H. apply step_dom_inv in H.
  destruct H as (ups & w1 & Hh & _ & ->).
  apply handler_handled in Hh.
  rewrite <- (handled_console props c w ups w1 Hh).
  unfold after_render, log_world. rewrite Hr.
  now destruct (Bool.eqb _ _).
Qed.

Lemma run_dom_console_quiet props es : forall c w c' w',
  truthy (recordPoints props) = false ->
  run props c (map Dom es) w = Ok c' w' -> console w' = console w.
Proof.
  induction es as [| e es IH]; intros c w c' w' Hr H; cbn [map run] in H.
  - inversion H; subst. reflexivity.
  - unfold bind in H.
    destruct (step props c (Dom e) w) as [c1 w1 | ex w1] eqn:Hs; [| discriminate].
    rewrite (IH c1 w1 c' w' Hr H).
    eapply step_dom_console_quiet; eassumption.
Qed.

Lemma session_dom_console_quiet props w0 es c w :
  truthy (recordPoints props) = false ->
  session props w0 (map Dom es) = Ok c w -> console w = console w0.
Proof.
  intros Hr H. unfold session, bind in H.
  destruct (canvasRef w0) as [cv |] eqn:Hc.
  - rewrite (mount_ok props w0 cv Hc) in H.
    rewrite (run_dom_console_quiet props es _ _ c w Hr H).
    unfold log_world. rewrite Hr. cbn [andb].
    apply after_resize_console.
  - rewrite (mount_null props w0 Hc) in H. discriminate.
Qed.

Lemma replay_runs_false cv vw vh :
  context2d cv = None \/ (width cv = vw /\ height cv = vh) ->
  replay_runs cv vw vh = false.
Proof.
  unfold replay_runs. intros [Hk | [Hw Hh]].
  - rewrite Hk. apply andb_false_r.
  - rewrite (proj2 (Z.eqb_eq _ _) Hw), (proj2 (Z.eqb_eq _ _) Hh). reflexivity.
Qed.

(** C1, as the code has it: with recording disabled nothing is logged, but
    the path is retained all the same.  After any sequence of down, move
    and up events the path holds the candidate points of the segments
    rendered, and is empty exactly when none was rendered.  A following
    resize is then fully determined.  If the box differs from the backing
    size and the context is available, the canvas is cleared and the path
    replayed: one stroke-render call per consecutive pair, N-1 for a path
    of N points, zero exactly when N <= 1, and the canvas holds the scale
    and those strokes only.  Otherwise the resize issues no call and
    leaves the canvas as it was. *)
Theorem recording_off_path_still_replayed props w0 es :
  truthy (recordPoints props) = false ->
  canvasRef w0 <> None ->
  calls w0 = [] ->
  Forall (fun e => wf_event e = true) es ->
  exists c w cv,
    session props w0 (map Dom es) = Ok c w /\
    canvasRef w = Some cv /\
    console w = console w0 /\
    data (state c) = map snd (calls w) /\
    (data (state c) = [] <-> calls w = []) /\
    forall vw vh,
      exists w',
        step props c (WindowResize vw vh) w = Ok c w' /\
        console w' = console w /\
        (context2d cv <> None ->
         width cv <> vw \/ height cv <> vh ->
         calls w' = calls w ++ segments (data (state c)) /\
         List.length (segments (data (state c))) =
           (List.length (data (state c)) - 1)%nat /\
         (calls w' = calls w <-> (List.length (data (state c)) <= 1)%nat) /\
         canvasRef w' =
         Some (mkCanvas (offsetLeft cv) (offsetTop cv)
                        (vw * ratio_of w) (vh * ratio_of w)
                        (Some (Scale (ratio_of w) (ratio_of w)
                               :: lines_calls props
                                    (segments (data (state c))))))) /\
        (context2d cv = None \/ (width cv = vw /\ height cv = vh) ->
         w' = set_viewport (vw, vh) w).
Proof.
  intros Hr Hc H0 Hwf.
  destruct (session_dom_path props w0 es Hc H0 Hwf)
    as (c & w & Hs & _ & I & Hc').
  destruct (canvasRef w) as [cv |] eqn:Hcv; [| congruence].
  unfold path_is_rendered in I.
  exists c, w, cv.
  split; [exact Hs |]. split; [exact Hcv |].
  split; [exact (session_dom_console_quiet props w0 es c w Hr Hs) |].
  split; [exact I |].
  split.
  { rewrite I. destruct (calls w); cbn; split; congruence. }
  intros vw vh.
  exists (after_resize props (data (state c)) cv (set_viewport (vw, vh) w)).
  pose proof (step_resize props c vw vh w cv Hcv) as Hstep.
  split; [exact Hstep |].
  split; [now rewrite after_resize_console |].
  split.
  - intros Hk Hd.
    pose proof (replay_runs_true cv vw vh Hk Hd) as Hrun.
    assert (Hcalls : calls (after_resize props (data (state c)) cv
                              (set_viewport (vw, vh) w)) =
                     calls w ++ segments (data (state c))).
    { rewrite after_resize_calls. cbn [set_viewport viewport fst snd calls].
      now rewrite Hrun. }
    pose proof (segments_length (data (state c))) as Hl.
    split; [exact Hcalls |]. split; [exact Hl |]. split.
    + rewrite Hcalls. split.
      * intros E. rewrite <- (app_nil_r (calls w)) in E at 2.
        apply app_inv_head in E. rewrite E in Hl. cbn in Hl. lia.
      * intros Hn. destruct (segments (data (state c)));
          [now rewrite app_nil_r | cbn in Hl; lia].
    + destruct (step_resize_canvas props c w cv vw vh Hcv Hk Hd)
        as (w1 & Hs1 & Hc1).
      rewrite Hstep in Hs1. inversion Hs1 as [E]. rewrite E. exact Hc1.
  - intros Hn. unfold after_resize. cbn [set_viewport viewport fst snd].
    now rewrite (replay_runs_false cv vw vh Hn).
Qed.

Lemma recording_off_path_still_replayed_witness :
  exists c w w',
    session quietProps world0 (map Dom sampleStroke) = Ok c w /\
    step quietProps c (WindowResize 400 300) w = Ok c w' /\
    console w = [] /\
    data (state c) = [pt 5 5; pt 10 10] /\
    calls w' = calls w ++ [(pt 5 5, pt 10 10)] /\
    canvasRef w' =
    Some (mkCanvas 0 0 400 300
                   (Some (Scale 1 1
                          :: line_calls quietProps (pt 5 5) (pt 10 10)))).
Proof.
  destruct (recording_off_path_still_replayed quietProps world0 sampleStroke
              eq_refl ltac:(discriminate) eq_refl ltac:(repeat constructor))
    as (c & w & cv & Hs & Hcv & Hq & _ & _ & Hr).
  pose proof Hs as Hv. vm_compute in Hv. injection Hv as Ec Ew.
  subst c w. cbn in Hcv. injection Hcv as Ecv. subst cv.
  destruct (Hr 400 300) as (w' & Hstep & _ & Hrun & _).
  destruct (Hrun ltac:(discriminate) ltac:(left; discriminate))
    as (Hcalls & _ & _ & Hcanvas).
  eexists. eexists. exists w'.
  split; [exact Hs |]. split; [exact Hstep |]. split; [exact Hq |].
  split; [reflexivity |]. split; [exact Hcalls | exact Hcanvas].
Defined.
